(** * Verification of the mail sender (自动发邮件.py)

    A shallow embedding of [EmailConfig], [EmailSender] and [main].

    - Python [str] and [bytes] values are [string]s (byte sequences).
    - Python lists that are shared with the caller (the [receiver], [cc]
      and [bcc] arguments) live in a heap of list objects, so that
      [list.extend] is an in-place update that every alias observes.
    - Effects are threaded by a state-and-exception monad that also
      records the trace of external actions (network calls, sleeps, log
      records and method entries).
    - The behaviour of the outside world (mail server, file system,
      image sniffing and MIME serialisation in the standard library) is
      an oracle [Env] that the theorems quantify over.
    - [Exn] stands for the subclasses of Python's [Exception]; these are
      what every [except Exception] clause of the program catches. *)

From Stdlib Require Import ZArith Ascii String.
From stdpp Require Import gmap strings list.

Open Scope Z_scope.

(** ** Python strings *)

Module PyStr.

(** Truth value of a [str]: only the empty string is false. *)
Definition truthy (s : string) : bool :=
  match s with EmptyString => false | String _ _ => true end.

(** Truth value of an [Optional[str]]. *)
Definition truthy_opt (o : option string) : bool :=
  match o with None => false | Some s => truthy s end.

(** [sep.join(xs)]. *)
Fixpoint join (sep : string) (xs : list string) : string :=
  match xs with
  | [] => ""
  | [x] => x
  | x :: rest => x +:+ sep +:+ join sep rest
  end.

Definition is_upper (c : ascii) : bool :=
  let n := nat_of_ascii c in (Nat.leb 65 n && Nat.leb n 90)%bool.

(** [str.lower] on one character (ASCII letters; other bytes are kept). *)
Definition lower_ascii (c : ascii) : ascii :=
  if is_upper c then ascii_of_nat (nat_of_ascii c + 32) else c.

(** [str.lower]. *)
Fixpoint lower (s : string) : string :=
  match s with
  | EmptyString => EmptyString
  | String c rest => String (lower_ascii c) (lower rest)
  end.

(** Blanks that [int] removes around an ASCII argument: tab, line
    feed, vertical tab, form feed, carriage return and space. *)
Definition is_space (c : ascii) : bool :=
  let n := nat_of_ascii c in
  ((Nat.leb 9 n && Nat.leb n 13) || Nat.eqb n 32)%bool.

Definition is_digit (c : ascii) : bool :=
  let n := nat_of_ascii c in (Nat.leb 48 n && Nat.leb n 57)%bool.

Definition digit_val (c : ascii) : Z := Z.of_nat (nat_of_ascii c) - 48.

Fixpoint lstrip (cs : list ascii) : list ascii :=
  match cs with
  | c :: rest => if is_space c then lstrip rest else cs
  | [] => []
  end.

Definition strip (cs : list ascii) : list ascii :=
  rev (lstrip (rev (lstrip cs))).

(** Decimal digits, single underscores allowed between two digits:
    the value and the number of digits. *)
Fixpoint digits (cs : list ascii) (acc count : Z) (after_digit : bool)
    : option (Z * Z) :=
  match cs with
  | [] => if after_digit then Some (acc, count) else None
  | c :: rest =>
      if is_digit c then digits rest (10 * acc + digit_val c) (count + 1) true
      else if Ascii.eqb c "_"%char
           then (if after_digit then digits rest acc count false else None)
           else None
  end.

(** The limit on the length of a decimal literal: with a positive
    [max_digits], more than [max_digits] digits are refused (literals of
    at most 640 digits are never checked). *)
Definition limited (max_digits : Z) (parsed : option (Z * Z)) : option Z :=
  '(value, count) ← parsed;
  if ((640 <? count) && (0 <? max_digits) && (max_digits <? count))%bool
  then None
  else Some value.

(** [int(s)] in base ten on an ASCII string: [None] stands for
    [ValueError]. *)
Definition int_ascii (max_digits : Z) (s : string) : option Z :=
  match strip (list_ascii_of_string s) with
  | c :: rest =>
      if Ascii.eqb c "-"%char
      then Z.opp <$> limited max_digits (digits rest 0 0 false)
      else if Ascii.eqb c "+"%char
           then limited max_digits (digits rest 0 0 false)
           else limited max_digits (digits (c :: rest) 0 0 false)
  | [] => None
  end.

Fixpoint is_ascii (s : string) : bool :=
  match s with
  | EmptyString => true
  | String c rest => (Nat.ltb (nat_of_ascii c) 128 && is_ascii rest)%bool
  end.

(** [int(s)]. What the library makes of a string that is not ASCII
    (blanks and digits of other scripts) is left to [non_ascii]. *)
Definition int (max_digits : Z) (non_ascii : string -> option Z) (s : string)
    : option Z :=
  if is_ascii s then int_ascii max_digits s else non_ascii s.

End PyStr.

(** ** pathlib: the final component of a path and its suffix *)

Module PurePath.

(** Components of a POSIX path: empty and [.] components are dropped. *)
Fixpoint split (cs : list ascii) (cur : list ascii) : list (list ascii) :=
  match cs with
  | [] => [rev cur]
  | c :: rest =>
      if Ascii.eqb c "/"%char then rev cur :: split rest []
      else split rest (c :: cur)
  end.

Definition keep (part : list ascii) : bool :=
  match part with
  | [] => false
  | [c] => negb (Ascii.eqb c "."%char)
  | _ => true
  end.

Definition parts (p : string) : list (list ascii) :=
  List.filter keep (split (list_ascii_of_string p) []).

(** [Path(p).name]. *)
Definition name (p : string) : string :=
  string_of_list_ascii (List.last (parts p) []).

(** Index of the last dot of [cs], counted from position [i]. *)
Fixpoint rfind_dot (cs : list ascii) (i : nat) (found : option nat) : option nat :=
  match cs with
  | [] => found
  | c :: rest =>
      rfind_dot rest (S i) (if Ascii.eqb c "."%char then Some i else found)
  end.

(** [Path(p).suffix]: from the last dot of the name on, unless that dot
    is the first or the last character of the name. *)
Definition suffix (p : string) : string :=
  let nm := List.last (parts p) [] in
  match rfind_dot nm 0%nat None with
  | Some i =>
      if (Nat.ltb 0 i && Nat.ltb i (length nm - 1))%bool
      then string_of_list_ascii (drop i nm)
      else ""
  | None => ""
  end.

End PurePath.

(** ** Exceptions, log records, events *)

(** The subclasses of [Exception] the program can meet. *)
Inductive Exn :=
| ValueError (msg : string)
| AttributeError
| TypeError
| OSError
| UnicodeError
| OverflowError
| SMTPException.

Inductive Level := DEBUG | INFO | WARNING | ERROR.

(** The log records of the program, one constructor per call site. *)
Inductive LogMsg :=
| MsgConnected
| MsgConnectFailed (n : Z) (e : Exn)
| MsgSent (receivers : list string)
| MsgSendFailed (n : Z) (e : Exn)
| MsgSendError (e : Exn)
| MsgAttachmentMissing (file_path : string)
| MsgAttachmentAdded (name : string)
| MsgAttachmentError (e : Exn)
| MsgClosed
| MsgCloseError (e : Exn)
| MsgMainSuccess
| MsgMainFailure
| MsgMainError (e : Exn).

Inductive Method := MConnect | MSendEmail | MClose.

(** A connection object is named by the instant of its creation. *)
Definition conn := nat.

(** Entries into the methods of the sender, calls to the mail server
    (each with the exception it raised, if any), sleeps and log records. *)
Inductive Event :=
| EvCall (m : Method)
| EvSMTP_SSL (host : string) (port : Z) (fault : option Exn)
| EvLogin (c : conn) (user password : string) (fault : option Exn)
| EvSendmail (c : conn) (from_addr : string) (to_addrs : list string)
    (msg : string) (fault : option Exn)
| EvQuit (c : conn) (fault : option Exn)
| EvSleep (secs : Z)
| EvLog (lvl : Level) (m : LogMsg).

(** ** MIME objects *)

(** A header: name, value and parameters. *)
Record Hdr := { h_name : string; h_value : string; h_params : list (string * string) }.

Inductive MimePart :=
| MIMEText (text subtype charset : string)
| MIMEImage (data subtype : string) (hdrs : list Hdr)
| MIMEApplication (data subtype : string) (hdrs : list Hdr).

(** A message object: its identity, the instant of its creation (the
    library draws a boundary of its own for each object it serialises),
    and its content. *)
Record MIMEMultipart := {
  m_id : nat;
  m_subtype : string;
  m_headers : list (string * string);
  m_parts : list MimePart
}.

Definition MIMEMultipart_new (id : nat) (subtype : string) : MIMEMultipart :=
  {| m_id := id; m_subtype := subtype; m_headers := []; m_parts := [] |}.

(** [message[name] = value] appends a header. *)
Definition set_header (m : MIMEMultipart) (name value : string) : MIMEMultipart :=
  {| m_id := m_id m;
     m_subtype := m_subtype m;
     m_headers := m_headers m ++ [(name, value)];
     m_parts := m_parts m |}.

(** [message.attach(part)]. *)
Definition attach (m : MIMEMultipart) (p : MimePart) : MIMEMultipart :=
  {| m_id := m_id m;
     m_subtype := m_subtype m;
     m_headers := m_headers m;
     m_parts := m_parts m ++ [p] |}.

(** [part.add_header(name, value, **params)]. *)
Definition add_header (p : MimePart) (h : Hdr) : MimePart :=
  match p with
  | MIMEText t s c => MIMEText t s c
  | MIMEImage d s hs => MIMEImage d s (hs ++ [h])
  | MIMEApplication d s hs => MIMEApplication d s (hs ++ [h])
  end.

(** ** The outside world *)

Inductive FileState :=
| Missing                      (* [Path.exists()] is false *)
| Unreadable (e : Exn)         (* exists, but [open] or [read] raises *)
| Readable (content : string).

Record Env := {
  (** process environment and the content of the [.env] file *)
  environ : gmap string string;
  dotenv : gmap string string;
  (** the interpreter's limit on decimal literals (4300 by default, 0 for
      none), and [int] on strings that are not ASCII *)
  int_max_str_digits : Z;
  int_non_ascii : string -> option Z;
  (** file system *)
  fs : string -> FileState;
  (** [imghdr]-style sniffing inside [MIMEImage]: the image subtype *)
  image_what : string -> option string;
  (** [message.as_string()]: the text, or the exception raised; it
      depends on the content of the message and on which object it is *)
  as_string : MIMEMultipart -> Exn + string;
  (** the mail server at each instant: the exception a call raises, if any *)
  ssl_fault : nat -> string -> Z -> option Exn;
  login_fault : nat -> conn -> string -> string -> option Exn;
  sendmail_fault : nat -> conn -> string -> list string -> string -> option Exn;
  quit_fault : nat -> conn -> option Exn
}.

(** ** Configuration *)

Record EmailConfig := {
  smtp_server : string;
  smtp_port : Z;
  email : string;
  password : string
}.

(** [load_dotenv()]: variables of the [.env] file are added to the process
    environment; variables already set are kept. *)
Definition load_dotenv (E : Env) : gmap string string := environ E ∪ dotenv E.

Definition getenv (vars : gmap string string) (key : string) : option string :=
  vars !! key.

Definition getenv_default (vars : gmap string string) (key dflt : string) : string :=
  default dflt (vars !! key).

Definition config_error : Exn := ValueError "请在.env文件中设置EMAIL和EMAIL_PASSWORD".
Definition int_error : Exn := ValueError "invalid literal for int() with base 10".

(** [EmailConfig.__init__]: the constructed configuration or the
    exception raised. *)
Definition EmailConfig_init (E : Env) : Exn + EmailConfig :=
  let vars := load_dotenv E in
  let server := getenv_default vars "SMTP_SERVER" "smtp.qq.com" in
  match PyStr.int (int_max_str_digits E) (int_non_ascii E)
                  (getenv_default vars "SMTP_PORT" "465") with
  | None => inl int_error
  | Some port =>
      let em := getenv vars "EMAIL" in
      let pw := getenv vars "EMAIL_PASSWORD" in
      if forallb PyStr.truthy_opt [em; pw]
      then inr {| smtp_server := server; smtp_port := port;
                  email := default "" em; password := default "" pw |}
      else inl config_error
  end.

(** ** Program state and the monad of effects *)

(** Addresses of Python list objects. *)
Definition loc := positive.

Record EmailSender := {
  config : EmailConfig;
  smtp_client : option conn;
  max_retries : Z;
  retry_delay : Z
}.

Record St := {
  self : EmailSender;                 (* the one sender object *)
  heap : gmap loc (list string);      (* list objects *)
  clock : nat                         (* server calls and message objects so far *)
}.

Inductive Outcome (A : Type) :=
| Val (a : A)
| Exc (e : Exn).
Arguments Val {A} a.
Arguments Exc {A} e.

(** A computation: outcome, final state and the events it emitted. *)
Definition M (A : Type) : Type := St -> Outcome A * St * list Event.

Definition outcome {A} (r : Outcome A * St * list Event) : Outcome A := r.1.1.
Definition final {A} (r : Outcome A * St * list Event) : St := r.1.2.
Definition events {A} (r : Outcome A * St * list Event) : list Event := r.2.

#[global] Instance M_ret : MRet M := fun A a st => (Val a, st, []).

#[global] Instance M_bind : MBind M := fun A B f m st =>
  match m st with
  | (Val a, st1, ev1) => let '(o, st2, ev2) := f a st1 in (o, st2, ev1 ++ ev2)
  | (Exc e, st1, ev1) => (Exc e, st1, ev1)
  end.

Definition raise {A} (e : Exn) : M A := fun st => (Exc e, st, []).

(** [try: body  except Exception as e: handler e]. *)
Definition try_except {A} (body : M A) (handler : Exn -> M A) : M A := fun st =>
  match body st with
  | (Val a, st1, ev1) => (Val a, st1, ev1)
  | (Exc e, st1, ev1) => let '(o, st2, ev2) := handler e st1 in (o, st2, ev1 ++ ev2)
  end.

(** Runs [body] and hands back how it ended, raising nothing. *)
Definition catch {A} (body : M A) : M (Exn + A) := fun st =>
  match body st with
  | (Val a, st1, ev1) => (Val (inr a), st1, ev1)
  | (Exc e, st1, ev1) => (Val (inl e), st1, ev1)
  end.

Definition emit (ev : Event) : M unit := fun st => (Val (), st, [ev]).

Definition log (lvl : Level) (m : LogMsg) : M unit := emit (EvLog lvl m).

(** What [time.sleep] refuses: a number of seconds whose nanoseconds do
    not fit in 64 bits, and a negative one. *)
Definition sleep_fault (secs : Z) : option Exn :=
  if ((secs <? -9223372036) || (9223372036 <? secs))%bool
  then Some OverflowError
  else if secs <? 0
       then Some (ValueError "sleep length must be non-negative")
       else None.

Arguments sleep_fault : simpl never.

(** [time.sleep]. *)
Definition sleep (secs : Z) : M unit :=
  match sleep_fault secs with
  | Some e => raise e
  | None => emit (EvSleep secs)
  end.

Definition get_self : M EmailSender := fun st => (Val (self st), st, []).

Definition set_smtp_client (c : option conn) : M unit := fun st =>
  (Val (),
   {| self := {| config := config (self st); smtp_client := c;
                 max_retries := max_retries (self st);
                 retry_delay := retry_delay (self st) |};
      heap := heap st; clock := clock st |},
   []).

Definition set_self (s : EmailSender) : M unit := fun st =>
  (Val (), {| self := s; heap := heap st; clock := clock st |}, []).

Definition tick : M nat := fun st =>
  (Val (clock st),
   {| self := self st; heap := heap st; clock := S (clock st) |}, []).

(** *** List objects *)

Definition heap_get (h : gmap loc (list string)) (r : loc) : list string :=
  default [] (h !! r).

Definition deref (r : loc) : M (list string) := fun st =>
  (Val (heap_get (heap st) r), st, []).

(** A list display [[x; ...]] creates a new object. *)
Definition alloc (l : list string) : M loc := fun st =>
  let r := fresh (dom (heap st)) in
  (Val r, {| self := self st; heap := <[r := l]> (heap st); clock := clock st |}, []).

(** [dst.extend(src)], in place. *)
Definition extend (dst src : loc) : M unit := fun st =>
  let h := heap st in
  (Val (),
   {| self := self st;
      heap := <[dst := heap_get h dst ++ heap_get h src]> h;
      clock := clock st |},
   []).

(** *** smtplib *)

(** A call to the server at the current instant: it is recorded with
    its result, and raises when the server faults. *)
Definition server_call (ev : option Exn -> Event) (fault : nat -> option Exn)
    : M nat :=
  t ← tick;
  emit (ev (fault t));;
  match fault t with
  | Some e => raise e
  | None => mret t
  end.

(** *** Loops and returned values *)

(** What a method hands back: [True], [False], or [None] when control
    falls off its end. *)
Inductive PyVal := PyNone | PyBool (b : bool).

Definition py_truthy (v : PyVal) : bool :=
  match v with PyBool b => b | PyNone => false end.

(** [range(n)]. *)
Definition range (n : Z) : list Z := Z.of_nat <$> seq 0 (Z.to_nat n).

(** [for x in xs: body], where an iteration either executes [return v]
    ([Some v]) or reaches [continue] or the end of the body ([None]). *)
Fixpoint for_ {X R} (xs : list X) (body : X -> M (option R)) : M (option R) :=
  match xs with
  | [] => mret None
  | x :: rest =>
      r ← body x;
      match r with
      | Some v => mret (Some v)
      | None => for_ rest body
      end
  end.

Definition returned (r : option bool) : PyVal :=
  match r with Some b => PyBool b | None => PyNone end.

(** The [receiver] argument: one address, a list object, or any other
    object, one that [", ".join] rejects with [TypeError]. *)
Inductive Receiver :=
| RStr (address : string)
| RList (r : loc)
| RInvalid.

(** [EmailSender.__init__]. *)
Definition EmailSender_init (cfg : EmailConfig) : EmailSender :=
  {| config := cfg; smtp_client := None; max_retries := 3; retry_delay := 2 |}.

Section Program.

Variable E : Env.

(** [smtplib.SMTP_SSL(host, port)]. *)
Definition SMTP_SSL (host : string) (port : Z) : M conn :=
  server_call (EvSMTP_SSL host port) (fun t => ssl_fault E t host port).

(** [client.login(user, password)]. *)
Definition login (c : conn) (user pw : string) : M unit :=
  server_call (EvLogin c user pw) (fun t => login_fault E t c user pw);;
  mret ().

(** [client.sendmail(from_addr, to_addrs, msg)]. *)
Definition sendmail (c : conn) (from_addr : string) (to_addrs : list string)
    (msg : string) : M unit :=
  server_call (EvSendmail c from_addr to_addrs msg)
              (fun t => sendmail_fault E t c from_addr to_addrs msg);;
  mret ().

(** [client.quit()]. *)
Definition quit (c : conn) : M unit :=
  server_call (EvQuit c) (fun t => quit_fault E t c);;
  mret ().

(** *** EmailSender *)

(** The [except] clause shared by both retry loops. *)
Definition retry_or_give_up (attempt : Z) : M (option bool) :=
  s ← get_self;
  if attempt <? max_retries s - 1
  then sleep (retry_delay s);; mret None
  else mret (Some false).

Definition connect_attempt (attempt : Z) : M (option bool) :=
  try_except
    (s ← get_self;
     c ← SMTP_SSL (smtp_server (config s)) (smtp_port (config s));
     set_smtp_client (Some c);;
     s ← get_self;
     login c (email (config s)) (password (config s));;
     log INFO MsgConnected;;
     mret (Some true))
    (fun e =>
       log ERROR (MsgConnectFailed (attempt + 1) e);;
       retry_or_give_up attempt).

Definition connect : M PyVal :=
  emit (EvCall MConnect);;
  s ← get_self;
  r ← for_ (range (max_retries s)) connect_attempt;
  mret (returned r).

Definition image_suffixes : list string := [".jpg"; ".jpeg"; ".png"; ".gif"].

Definition content_disposition (filename : string) : Hdr :=
  {| h_name := "Content-Disposition"; h_value := "attachment";
     h_params := [("filename", filename)] |}.

(** [_add_attachment]: the message after the call. *)
Definition _add_attachment (message : MIMEMultipart) (file_path : string)
    : M MIMEMultipart :=
  try_except
    (match fs E file_path with
     | Missing =>
         log WARNING (MsgAttachmentMissing file_path);;
         mret message
     | Unreadable e => raise e
     | Readable file_content =>
         attachment ←
           (if bool_decide (PyStr.lower (PurePath.suffix file_path) ∈ image_suffixes)
            then match image_what E file_content with
                 | Some subtype => mret (MIMEImage file_content subtype [])
                 | None => raise TypeError
                 end
            else mret (MIMEApplication file_content "octet-stream" []));
         let attachment :=
           add_header attachment (content_disposition (PurePath.name file_path)) in
         let message := attach message attachment in
         log DEBUG (MsgAttachmentAdded (PurePath.name file_path));;
         mret message
     end)
    (fun e =>
       log ERROR (MsgAttachmentError e);;
       mret message).

Fixpoint add_attachments (message : MIMEMultipart) (paths : list string)
    : M MIMEMultipart :=
  match paths with
  | [] => mret message
  | attachment_path :: rest =>
      message ← _add_attachment message attachment_path;
      add_attachments message rest
  end.

(** [if cc: message["Cc"] = ...; receivers.extend(cc)]. A list is
    true when it is not empty. *)
Definition add_cc (message : MIMEMultipart) (receivers : loc) (cc : option loc)
    : M MIMEMultipart :=
  match cc with
  | Some cc_ref =>
      l ← deref cc_ref;
      match l with
      | _ :: _ =>
          let message := set_header message "Cc" (PyStr.join ", " l) in
          extend receivers cc_ref;;
          mret message
      | [] => mret message
      end
  | None => mret message
  end.

(** [if bcc: receivers.extend(bcc)]. *)
Definition add_bcc (receivers : loc) (bcc : option loc) : M unit :=
  match bcc with
  | Some bcc_ref =>
      l ← deref bcc_ref;
      match l with
      | _ :: _ => extend receivers bcc_ref
      | [] => mret ()
      end
  | None => mret ()
  end.

Definition send_attempt (message : MIMEMultipart) (receivers : loc)
    (attempt : Z) : M (option bool) :=
  try_except
    (s ← get_self;
     match smtp_client s with
     | None => raise AttributeError
     | Some client =>
         to_addrs ← deref receivers;
         match as_string E message with
         | inl e => raise e
         | inr text =>
             sendmail client (email (config s)) to_addrs text;;
             to_addrs ← deref receivers;
             log INFO (MsgSent to_addrs);;
             mret (Some true)
         end
     end)
    (fun e =>
       log ERROR (MsgSendFailed (attempt + 1) e);;
       retry_or_give_up attempt).

(** The [From] header. *)
Definition from_header (sender_name address : string) : string :=
  if PyStr.truthy sender_name
  then sender_name +:+ "<" +:+ address +:+ ">"
  else address.

(** Lines 119 to 145 of [send_email]: the MIME object is built, the
    recipient list gathered and the files attached. Hands back the
    message and the list object [receivers]. *)
Definition build_message (receiver : Receiver) (subject content : string)
    (attachments : option (list string)) (html_content : option string)
    (sender_name : string) (cc bcc : option loc) : M (MIMEMultipart * loc) :=
  id ← tick;
  let message := MIMEMultipart_new id "alternative" in
  s ← get_self;
  let message := set_header message "Subject" subject in
  let message :=
    set_header message "From" (from_header sender_name (email (config s))) in
  receivers ← match receiver with
              | RStr address => alloc [address]
              | RList r => mret r
              | RInvalid => raise TypeError
              end;
  to_ ← deref receivers;
  let message := set_header message "To" (PyStr.join ", " to_) in
  message ← add_cc message receivers cc;
  add_bcc receivers bcc;;
  let message := attach message (MIMEText content "plain" "utf-8") in
  let message :=
    if PyStr.truthy_opt html_content
    then attach message (MIMEText (default "" html_content) "html" "utf-8")
    else message in
  message ← match attachments with
            | Some (p :: ps) => add_attachments message (p :: ps)
            | _ => mret message
            end;
  mret (message, receivers).

(** Lines 147 to 162 of [send_email]: the retry loop around the
    transport. *)
Definition deliver (message : MIMEMultipart) (receivers : loc) : M PyVal :=
  s ← get_self;
  r ← for_ (range (max_retries s)) (send_attempt message receivers);
  mret (returned r).

Definition send_email (receiver : Receiver) (subject content : string)
    (attachments : option (list string)) (html_content : option string)
    (sender_name receiver_name : string) (cc bcc : option loc) : M PyVal :=
  emit (EvCall MSendEmail);;
  try_except
    ('(message, receivers) ← build_message receiver subject content attachments
                               html_content sender_name cc bcc;
     deliver message receivers)
    (fun e =>
       log ERROR (MsgSendError e);;
       mret (PyBool false)).

Definition close : M unit :=
  emit (EvCall MClose);;
  s ← get_self;
  match smtp_client s with
  | Some client =>
      try_except
        (quit client;;
         log INFO MsgClosed)
        (fun e => log ERROR (MsgCloseError e))
  | None => mret ()
  end.

(** [__enter__] and [__exit__]. *)
Definition enter : M unit := connect;; mret ().
Definition exit_ : M unit := close.

(** [with EmailSender(cfg) as sender: body]. [__exit__] hands back
    [None], so an exception of the body is raised again after it. *)
Definition with_EmailSender {A} (cfg : EmailConfig) (body : M A) : M A :=
  set_self (EmailSender_init cfg);;
  enter;;
  r ← catch body;
  exit_;;
  match r with
  | inl e => raise e
  | inr a => mret a
  end.

Definition EmailConfig_new : M EmailConfig :=
  match EmailConfig_init E with
  | inl e => raise e
  | inr cfg => mret cfg
  end.

(** The body of the [with] statement of [main]. *)
Definition main_body : M unit :=
  receiver ← alloc ["dong.cheng@ythyjx.com"];
  cc ← alloc ["support@ythyjx.com"];
  success ← send_email (RList receiver)
              "结业证书"
              "Tom，这是夜曲编程的结业证书，望查收~"
              (Some ["D:\Python\Practices\自动发邮件\certificate_tom.png"])
              (Some "<h1>恭喜完成课程！</h1><p>这是您的结业证书，请查收。</p>")
              "夜曲编程" "Tom" (Some cc) None;
  if py_truthy success
  then log INFO MsgMainSuccess
  else log ERROR MsgMainFailure.

Definition main : M unit :=
  try_except
    (cfg ← EmailConfig_new;
     with_EmailSender cfg main_body)
    (fun e => log ERROR (MsgMainError e)).

End Program.

(** * Specification vocabulary *)

(** [never_raises m]: whatever the state, [m] ends normally. *)
Definition never_raises {A} (m : M A) : Prop :=
  forall st, exists a, outcome (m st) = Val a.

(** [obeys Inv Q m]: [m] maintains the state invariant [Inv] and emits
    only events that satisfy [Q]. *)
Definition obeys {A} (Inv : St -> Prop) (Q : Event -> Prop) (m : M A) : Prop :=
  forall st, Inv st -> Inv (final (m st)) /\ Forall Q (events (m st)).

(** The sender as [__init__] builds it, whatever its connection. *)
Definition constructed (s : EmailSender) : Prop :=
  max_retries s = 3 /\ retry_delay s = 2.

(** Number of entries into method [m] in a trace. *)
Fixpoint calls (m : Method) (tr : list Event) : nat :=
  match tr with
  | [] => 0
  | EvCall m' :: rest =>
      match m, m' with
      | MConnect, MConnect | MSendEmail, MSendEmail | MClose, MClose => S (calls m rest)
      | _, _ => calls m rest
      end
  | _ :: rest => calls m rest
  end.

(** The events that reach the mail server. *)
Definition is_network (ev : Event) : bool :=
  match ev with
  | EvSMTP_SSL _ _ _ | EvLogin _ _ _ _ | EvSendmail _ _ _ _ _ | EvQuit _ _ => true
  | _ => false
  end.



(** A well-configured environment whose server refuses the first login
    and the first delivery; [a.png] and [b.bin] are the files on disk. *)
Definition env_flaky : Env :=
  {| environ := {[ "EMAIL" := "me@example.org"; "EMAIL_PASSWORD" := "secret" ]};
     dotenv := {[ "SMTP_SERVER" := "mail.example.org"; "SMTP_PORT" := " 4_65 " ]};
     int_max_str_digits := 4300;
     int_non_ascii := fun _ => None;
     fs := fun p => if String.eqb p "a.png" then Readable "PNG"
                    else if String.eqb p "b.bin" then Readable "BIN"
                    else Missing;
     image_what := fun d => if String.eqb d "PNG" then Some "png" else None;
     as_string := fun m => inr (PyStr.join ";" (snd <$> m_headers m));
     ssl_fault := fun _ _ _ => None;
     login_fault := fun t _ _ _ => if Nat.eqb t 1 then Some SMTPException else None;
     sendmail_fault := fun t _ _ _ _ => if Nat.eqb t 5 then Some SMTPException else None;
     quit_fault := fun _ _ => Some SMTPException |}.

(** A server that accepts everything and a library that writes into the
    text a boundary of its own for each message object: here a run of
    [=], one for each object and server call before it. *)
Definition env_boundary : Env :=
  {| environ := {[ "EMAIL" := "me@example.org"; "EMAIL_PASSWORD" := "secret" ]};
     dotenv := ∅;
     int_max_str_digits := 4300;
     int_non_ascii := fun _ => None;
     fs := fun _ => Missing;
     image_what := fun _ => None;
     as_string := fun m => inr (String.concat "" (replicate (m_id m) "=") +:+ "|"
                                +:+ PyStr.join ";" (snd <$> m_headers m));
     ssl_fault := fun _ _ _ => None;
     login_fault := fun _ _ _ _ => None;
     sendmail_fault := fun _ _ _ _ _ => None;
     quit_fault := fun _ _ => None |}.

Definition cfg_example : EmailConfig :=
  {| smtp_server := "mail.example.org"; smtp_port := 465;
     email := "me@example.org"; password := "secret" |}.

(** A state before any connection, with two list objects. *)
Definition st_example : St :=
  {| self := EmailSender_init cfg_example;
     heap := {[ 1%positive := ["a@example.org"; "b@example.org"];
                2%positive := ["c@example.org"] ]};
     clock := 0 |}.

(** The same state once connection [2] is open. *)
Definition st_connected : St :=
  {| self := {| config := cfg_example; smtp_client := Some 2%nat;
                max_retries := 3; retry_delay := 2 |};
     heap := heap st_example;
     clock := 4 |}.

(** What a trace of [connect] shows of each attempt: it failed (the
    connection or the login raised), it succeeded (the login went
    through), and the sleeps in between. *)
Inductive Step := Failed | Succeeded | Pause (secs : Z).

Definition connect_step (ev : Event) : option Step :=
  match ev with
  | EvSMTP_SSL _ _ (Some _) => Some Failed
  | EvLogin _ _ _ (Some _) => Some Failed
  | EvLogin _ _ _ None => Some Succeeded
  | EvSleep secs => Some (Pause secs)
  | _ => None
  end.

Definition connect_steps (tr : list Event) : list Step := omap connect_step tr.

(** Number of connection attempts in a trace. *)
Fixpoint attempts (tr : list Event) : nat :=
  match tr with
  | [] => 0
  | EvSMTP_SSL _ _ _ :: rest => S (attempts rest)
  | _ :: rest => attempts rest
  end.

(** [fails] failed attempts, a pause of [delay] after each, then a last
    attempt that ends as [last]. *)
Definition retry_steps (delay : Z) (fails : nat) (last : Step) : list Step :=
  mjoin (replicate fails [Failed; Pause delay]) ++ [last].

(** An iteration of a retry loop: it leaves [max_retries] alone and either
    returns [True], or falls through to the next iteration when attempts
    are left and else returns [False], or raises (from [time.sleep]). *)
Definition retry_body (body : Z -> M (option bool)) : Prop :=
  forall attempt st,
    max_retries (self (final (body attempt st))) = max_retries (self st) /\
    (outcome (body attempt st) = Val (Some true) \/
     outcome (body attempt st) =
     Val (if attempt <? max_retries (self st) - 1 then None else Some false) \/
     exists e, outcome (body attempt st) = Exc e).

(** [returns_under Inv m]: from a state where [Inv] holds, [m] ends
    normally in a state where it holds. *)
Definition returns_under {A} (Inv : St -> Prop) (m : M A) : Prop :=
  forall st, Inv st -> Inv (final (m st)) /\ exists a, outcome (m st) = Val a.

(** The sender's delay is one that [time.sleep] accepts. *)
Definition sleeps_well (st : St) : Prop :=
  sleep_fault (retry_delay (self st)) = None.

(** What [deliver] may emit from a state with sender [s] and heap [h]:
    deliveries through the sender's connection, from its account, of the
    serialised [message] to the addresses that [receivers] holds; sleeps
    and log records; nothing else. *)
Definition delivery_event (E : Env) (s : EmailSender) (h : gmap loc (list string))
    (message : MIMEMultipart) (receivers : loc) (ev : Event) : Prop :=
  match ev with
  | EvSendmail c from_addr to_addrs msg _ =>
      smtp_client s = Some c /\ from_addr = email (config s) /\
      to_addrs = heap_get h receivers /\ as_string E message = inr msg
  | EvSleep _ | EvLog _ _ => True
  | _ => False
  end.

(** *** Attachments, as the specification words them *)

(** A file counts as an image by the lower-cased suffix of its name. *)
Definition is_image_path (file_path : string) : bool :=
  bool_decide (PyStr.lower (PurePath.suffix file_path) ∈ image_suffixes).

(** The part that a file contributes: none when the file is missing or
    unreadable, or has an image suffix but no recognisable image content;
    otherwise an image part or an [application/octet-stream] part, with a
    [Content-Disposition] header that names the file. *)
Definition part_for (E : Env) (file_path : string) : option MimePart :=
  match fs E file_path with
  | Readable data =>
      let disposition :=
        {| h_name := "Content-Disposition"; h_value := "attachment";
           h_params := [("filename", PurePath.name file_path)] |} in
      if is_image_path file_path
      then subtype ← image_what E data;
           Some (MIMEImage data subtype [disposition])
      else Some (MIMEApplication data "octet-stream" [disposition])
  | _ => None
  end.

(** The log record that a file leaves. *)
Definition log_for (E : Env) (file_path : string) : Event :=
  match fs E file_path with
  | Missing => EvLog WARNING (MsgAttachmentMissing file_path)
  | Unreadable e => EvLog ERROR (MsgAttachmentError e)
  | Readable data =>
      if is_image_path file_path
      then match image_what E data with
           | Some _ => EvLog DEBUG (MsgAttachmentAdded (PurePath.name file_path))
           | None => EvLog ERROR (MsgAttachmentError TypeError)
           end
      else EvLog DEBUG (MsgAttachmentAdded (PurePath.name file_path))
  end.

Definition add_parts (m : MIMEMultipart) (ps : list MimePart) : MIMEMultipart :=
  {| m_id := m_id m; m_subtype := m_subtype m; m_headers := m_headers m;
     m_parts := m_parts m ++ ps |}.

(** The headers of a part that [add_header] wrote. *)
Definition part_headers (p : MimePart) : list Hdr :=
  match p with
  | MIMEText _ _ _ => []
  | MIMEImage _ _ hs | MIMEApplication _ _ hs => hs
  end.

(** *** The recipient list, as the specification words it *)

Definition set_heap (st : St) (h : gmap loc (list string)) : St :=
  {| self := self st; heap := h; clock := clock st |}.

(** The state once a message object is created and the heap is [h]. *)
Definition built (st : St) (h : gmap loc (list string)) : St :=
  {| self := self st; heap := h; clock := S (clock st) |}.

(** The [except] clause of [send_email] around a computation. *)
Definition guarded (m : M PyVal) : M PyVal :=
  try_except m (fun e => log ERROR (MsgSendError e);; mret (PyBool false)).

(** The content of an optional list argument; nothing when it is [None]. *)
Definition addresses (h : gmap loc (list string)) (o : option loc) : list string :=
  match o with
  | Some r => heap_get h r
  | None => []
  end.

(** The heap once [dst] is extended by the optional list [src]. *)
Definition extended (h : gmap loc (list string)) (dst : loc) (src : option loc)
    : gmap loc (list string) :=
  match addresses h src with
  | [] => h
  | l => <[dst := heap_get h dst ++ l]> h
  end.

(** The list object [receivers] and the heap that holds it. *)
Definition receivers_of (h : gmap loc (list string)) (receiver : Receiver)
    : option (loc * gmap loc (list string)) :=
  match receiver with
  | RStr address => let r := fresh (dom h) in Some (r, <[r := [address]]> h)
  | RList r => Some (r, h)
  | RInvalid => None
  end.

(** Headers and text parts of the message object [id]: they mention
    neither [bcc] nor the attachments. *)
Definition text_message (id : nat) (account subject content : string)
    (html_content : option string) (sender_name : string)
    (to_ cc_ : list string) : MIMEMultipart :=
  {| m_id := id;
     m_subtype := "alternative";
     m_headers :=
       [("Subject", subject); ("From", from_header sender_name account);
        ("To", PyStr.join ", " to_)]
       ++ match cc_ with [] => [] | _ => [("Cc", PyStr.join ", " cc_)] end;
     m_parts :=
       MIMEText content "plain" "utf-8"
       :: if PyStr.truthy_opt html_content
          then [MIMEText (default "" html_content) "html" "utf-8"]
          else [] |}.

(** The message that [send_email] builds, as a function of the state and
    of every argument but [bcc]; it is the object created at the instant
    of the call. *)
Definition message_of (E : Env) (st : St) (receiver : Receiver)
    (subject content : string) (attachments : option (list string))
    (html_content : option string) (sender_name : string) (cc : option loc)
    : option MIMEMultipart :=
  '(r, h0) ← receivers_of (heap st) receiver;
  Some (add_parts
          (text_message (clock st) (email (config (self st))) subject content
                        html_content sender_name (heap_get h0 r) (addresses h0 cc))
          (omap (part_for E) (default [] attachments))).

(** Recipient lists and message texts handed to [sendmail] in a trace. *)
Definition envelopes (tr : list Event) : list (list string) :=
  omap (fun ev => match ev with
                  | EvSendmail _ _ to_addrs _ _ => Some to_addrs
                  | _ => None
                  end) tr.

Definition payloads (tr : list Event) : list string :=
  omap (fun ev => match ev with
                  | EvSendmail _ _ _ msg _ => Some msg
                  | _ => None
                  end) tr.

(** The addresses of the [receiver] argument. *)
Definition primary (h : gmap loc (list string)) (receiver : Receiver) : list string :=
  match receiver with
  | RStr address => [address]
  | RList r => heap_get h r
  | RInvalid => []
  end.

(** An optional list argument denotes a list object of the heap. *)
Definition allocated (h : gmap loc (list string)) (o : option loc) : Prop :=
  match o with
  | Some r => is_Some (h !! r)
  | None => True
  end.

(** [tagged kind part]: the part has a [Content-Disposition] header of
    type [kind]. *)
Definition tagged (kind : string) (part : MimePart) : Prop :=
  Exists (fun h => h_name h = "Content-Disposition" /\ h_value h = kind)
         (part_headers part).

(** What [connect] may emit: its own entry, connections and logins,
    sleeps and log records. *)
Definition connect_event (ev : Event) : Prop :=
  match ev with
  | EvCall MConnect | EvSMTP_SSL _ _ _ | EvLogin _ _ _ _ | EvSleep _ | EvLog _ _ => True
  | _ => False
  end.

(** The state in which [with EmailSender(cfg)] enters. *)
Definition entering (cfg : EmailConfig) (st : St) : St :=
  {| self := EmailSender_init cfg; heap := heap st; clock := clock st |}.

(** A message built with two files on disk and one that is not. *)
Definition built_example : Outcome (MIMEMultipart * loc) * St * list Event :=
  build_message env_flaky (RStr "x@example.org") "subject" "text"
                (Some ["a.png"; "gone.pdf"; "b.bin"]) None "" (Some 2%positive)
                None st_connected.

(** Two calls in a row on the connection [2], which differ in [bcc]
    only: the second gives the list [1]. *)
Definition first_call : Outcome PyVal * St * list Event :=
  send_email env_boundary (RStr "x@example.org") "subject" "text" None None
             "" "" (Some 2%positive) None st_connected.

Definition second_call : Outcome PyVal * St * list Event :=
  send_email env_boundary (RStr "x@example.org") "subject" "text" None None
             "" "" (Some 2%positive) (Some 1%positive) (final first_call).

Definition message_example : MIMEMultipart :=
  match outcome built_example with
  | Val (m, _) => m
  | Exc _ => MIMEMultipart_new 0 ""
  end.

Definition receivers_example : loc :=
  match outcome built_example with
  | Val (_, r) => r
  | Exc _ => 1%positive
  end.

(** * Vocabulary of the further properties *)

(** What a trace of [send_email] shows of each delivery: [sendmail] raised,
    [sendmail] went through, and the sleeps in between. *)
Definition send_step (ev : Event) : option Step :=
  match ev with
  | EvSendmail _ _ _ _ (Some _) => Some Failed
  | EvSendmail _ _ _ _ None => Some Succeeded
  | EvSleep secs => Some (Pause secs)
  | _ => None
  end.

Definition send_steps (tr : list Event) : list Step := omap send_step tr.

(** The sleeps of a trace, in order. *)
Definition sleeps (tr : list Event) : list Z :=
  omap (fun ev => match ev with EvSleep secs => Some secs | _ => None end) tr.



(** What [send_email] may emit on sender [s]: its own entry, deliveries
    through the connection of [s] and from its account, sleeps and log
    records. *)
Definition send_event (s : EmailSender) (ev : Event) : Prop :=
  match ev with
  | EvCall m => m = MSendEmail
  | EvSendmail c from_addr _ _ _ =>
      smtp_client s = Some c /\ from_addr = email (config s)
  | EvSleep _ | EvLog _ _ => True
  | _ => False
  end.

(** What [connect] may emit with configuration [cfg]: its own entry,
    connections to the configured server, logins with the configured
    account and credential, sleeps and log records. *)
Definition configured_event (cfg : EmailConfig) (ev : Event) : Prop :=
  match ev with
  | EvCall m => m = MConnect
  | EvSMTP_SSL host port _ => host = smtp_server cfg /\ port = smtp_port cfg
  | EvLogin _ user pw _ => user = email cfg /\ pw = password cfg
  | EvSleep _ | EvLog _ _ => True
  | _ => False
  end.

(** The connection and the result of the last login of a trace. *)
Definition last_login (tr : list Event) : option (conn * option Exn) :=
  List.last (omap (fun ev => match ev with
                             | EvLogin c _ _ fault => Some (Some (c, fault))
                             | _ => None
                             end) tr) None.

(** Connections that a trace opens and sessions that it quits. *)
Definition opened (tr : list Event) : nat :=
  length (List.filter (fun ev => match ev with
                                 | EvSMTP_SSL _ _ None => true
                                 | _ => false
                                 end) tr).

Definition quits (tr : list Event) : nat :=
  length (List.filter (fun ev => match ev with
                                 | EvQuit _ _ => true
                                 | _ => false
                                 end) tr).

(** A server that is out of reach. *)
Definition env_unreachable : Env :=
  {| environ := {[ "EMAIL" := "me@example.org"; "EMAIL_PASSWORD" := "secret" ]};
     dotenv := ∅;
     int_max_str_digits := 4300;
     int_non_ascii := fun _ => None;
     fs := fun _ => Missing;
     image_what := fun _ => None;
     as_string := fun _ => inr "text";
     ssl_fault := fun _ _ _ => Some OSError;
     login_fault := fun _ _ _ _ => None;
     sendmail_fault := fun _ _ _ _ _ => None;
     quit_fault := fun _ _ => None |}.

(** A server that accepts everything; on disk, [junk.png] has no image
    content and [locked.txt] cannot be read. *)
Definition env_accepting : Env :=
  {| environ := {[ "EMAIL" := "me@example.org"; "EMAIL_PASSWORD" := "secret" ]};
     dotenv := ∅;
     int_max_str_digits := 4300;
     int_non_ascii := fun _ => None;
     fs := fun p => if String.eqb p "a.png" then Readable "PNG"
                    else if String.eqb p "junk.png" then Readable "junk"
                    else if String.eqb p "locked.txt" then Unreadable OSError
                    else Missing;
     image_what := fun d => if String.eqb d "PNG" then Some "png" else None;
     as_string := fun m => inr (PyStr.join ";" (snd <$> m_headers m));
     ssl_fault := fun _ _ _ => None;
     login_fault := fun _ _ _ _ => None;
     sendmail_fault := fun _ _ _ _ _ => None;
     quit_fault := fun _ _ => None |}.

(** A library that serialises the messages whose headers are ASCII, and
    raises on the others. *)
Definition env_ascii_only : Env :=
  {| environ := ∅;
     dotenv := ∅;
     int_max_str_digits := 4300;
     int_non_ascii := fun _ => None;
     fs := fun _ => Missing;
     image_what := fun _ => None;
     as_string := fun m => if forallb (fun h => PyStr.is_ascii h.2) (m_headers m)
                           then inr (PyStr.join ";" (snd <$> m_headers m))
                           else inl UnicodeError;
     ssl_fault := fun _ _ _ => None;
     login_fault := fun _ _ _ _ => None;
     sendmail_fault := fun _ _ _ _ _ => None;
     quit_fault := fun _ _ => None |}.

(** A connected sender that does not retry. *)
Definition st_no_retry : St :=
  {| self := {| config := cfg_example; smtp_client := Some 2%nat;
                max_retries := 0; retry_delay := 2 |};
     heap := heap st_example;
     clock := 4 |}.

(** The records that [_add_attachment] logs. *)
Definition is_attachment_log (ev : Event) : bool :=
  match ev with
  | EvLog _ (MsgAttachmentMissing _)
  | EvLog _ (MsgAttachmentAdded _)
  | EvLog _ (MsgAttachmentError _) => true
  | _ => false
  end.

(** The message object [id] that [main] builds for the account
    [account]. *)
Definition main_message (E : Env) (account : string) (id : nat) : MIMEMultipart :=
  add_parts
    (text_message id account
       "结业证书"
       "Tom，这是夜曲编程的结业证书，望查收~"
       (Some "<h1>恭喜完成课程！</h1><p>这是您的结业证书，请查收。</p>")
       "夜曲编程"
       ["dong.cheng@ythyjx.com"] ["support@ythyjx.com"])
    (omap (part_for E) ["D:\Python\Practices\自动发邮件\certificate_tom.png"]).

(** * Properties *)

(** ** Reasoning about computations *)

Lemma run_bind {A B} (m : M A) (f : A -> M B) (st : St) :
  (m ≫= f) st =
  match m st with
  | (Val a, st1, ev1) => let '(o, st2, ev2) := f a st1 in (o, st2, ev1 ++ ev2)
  | (Exc e, st1, ev1) => (Exc e, st1, ev1)
  end.
Proof. reflexivity. Qed.

(** Unfolds the monad and the primitives of the model. *)
Ltac unfold_run :=
  unfold server_call, log, sleep, emit, raise, catch, try_except, get_self,
    set_self, set_smtp_client, tick, deref, alloc, extend,
    outcome, final, events, mbind, M_bind, mret, M_ret in *.

Ltac run := repeat (unfold_run; simpl in * ).

Section Combinators.

Context {A B : Type}.
Variable Inv : St -> Prop.
Variable Q : Event -> Prop.

Lemma obeys_ret (a : A) : obeys Inv Q (mret a).
Proof. intros st H. run. auto. Qed.

Lemma obeys_bind (m : M A) (f : A -> M B) :
  obeys Inv Q m -> (forall a, obeys Inv Q (f a)) -> obeys Inv Q (m ≫= f).
Proof.
  intros Hm Hf st H. destruct (Hm st H) as [H1 E1].
  rewrite run_bind. unfold final, events in *.
  destruct (m st) as [[[a|e] st1] ev1]; simpl in *; [|auto].
  destruct (Hf a st1 H1) as [H2 E2]. unfold final, events in *.
  destruct (f a st1) as [[o st2] ev2]; simpl in *.
  split; [assumption | apply Forall_app; auto].
Qed.

Lemma obeys_try (m : M A) (h : Exn -> M A) :
  obeys Inv Q m -> (forall e, obeys Inv Q (h e)) -> obeys Inv Q (try_except m h).
Proof.
  intros Hm Hh st H. destruct (Hm st H) as [H1 E1].
  unfold try_except, final, events in *.
  destruct (m st) as [[[a|e] st1] ev1]; simpl in *; [auto|].
  destruct (Hh e st1 H1) as [H2 E2]. unfold final, events in *.
  destruct (h e st1) as [[o st2] ev2]; simpl in *.
  split; [assumption | apply Forall_app; auto].
Qed.

Lemma never_raises_try (m : M A) (h : Exn -> M A) :
  (forall e, never_raises (h e)) -> never_raises (try_except m h).
Proof.
  intros Hh st. unfold try_except, outcome.
  destruct (m st) as [[[a|e] st1] ev1]; simpl; [eauto|].
  destruct (Hh e st1) as [a Ha]. unfold outcome in Ha.
  destruct (h e st1) as [[o st2] ev2]; simpl in *. eauto.
Qed.

End Combinators.

Lemma obeys_for {X R} (Inv : St -> Prop) (Q : Event -> Prop)
    (body : X -> M (option R)) (xs : list X) :
  (forall x, obeys Inv Q (body x)) -> obeys Inv Q (for_ xs body).
Proof.
  intros Hb. induction xs as [|x xs IH]; simpl.
  - apply obeys_ret.
  - apply obeys_bind; [apply Hb|].
    intros [v|]; [apply obeys_ret | exact IH].
Qed.

(** ** Projections of a run *)

Lemma outcome_run {A} (o : Outcome A) (st : St) (tr : list Event) :
  outcome (o, st, tr) = o.
Proof. reflexivity. Qed.

Lemma final_run {A} (o : Outcome A) (st : St) (tr : list Event) :
  final (o, st, tr) = st.
Proof. reflexivity. Qed.

Lemma events_run {A} (o : Outcome A) (st : St) (tr : list Event) :
  events (o, st, tr) = tr.
Proof. reflexivity. Qed.

(** ** close *)

Section Close.

Variable E : Env.

Lemma close_run (st : St) :
  close E st =
  match smtp_client (self st) with
  | None => (Val (), st, [EvCall MClose])
  | Some c =>
      let st' := {| self := self st; heap := heap st; clock := S (clock st) |} in
      (Val (), st',
       [EvCall MClose; EvQuit c (quit_fault E (clock st) c);
        EvLog (match quit_fault E (clock st) c with Some _ => ERROR | None => INFO end)
              (match quit_fault E (clock st) c with
               | Some e => MsgCloseError e
               | None => MsgClosed
               end)])
  end.
Proof.
  unfold close, quit. run.
  destruct (smtp_client (self st)) as [c|]; run; [|reflexivity].
  destruct (quit_fault E (clock st) c); reflexivity.
Qed.

End Close.

(** ** Configuration *)

Section Config.

Variable E : Env.



(** When construction fails, [main] only logs the error. *)
Lemma main_config_error (e : Exn) (st : St) :
  EmailConfig_init E = inl e ->
  main E st = (Val (), st, [EvLog ERROR (MsgMainError e)]).
Proof.
  intros H. unfold main, EmailConfig_new. rewrite H. reflexivity.
Qed.

End Config.

(** ** Retry loops *)

(** Splits on whether attempts are left and on what [time.sleep] does. *)
Ltac retry_cases :=
  repeat match goal with
         | |- context [Z.ltb ?a ?b] => destruct (Z.ltb a b) eqn:?; simpl
         | |- context [sleep_fault ?d] => destruct (sleep_fault d) eqn:?; simpl
         end.


Lemma never_raises_log_then {A} (lvl : Level) (msg : LogMsg) (m : M A) :
  never_raises m -> never_raises (log lvl msg;; m).
Proof.
  intros Hm st. destruct (Hm st) as [a Ha]. run.
  destruct (m st) as [[o st1] ev1]; simpl in *. eauto.
Qed.

Lemma returns_for {X R} (Inv : St -> Prop) (body : X -> M (option R))
    (xs : list X) :
  (forall x, returns_under Inv (body x)) -> returns_under Inv (for_ xs body).
Proof.
  intros Hb. induction xs as [|x xs IH]; intros st HI; simpl.
  - split; [assumption | eexists; reflexivity].
  - rewrite run_bind. destruct (Hb x st HI) as [HI1 [a Ha]].
    unfold outcome, final in *.
    destruct (body x st) as [[o st1] ev1]; simpl in *. subst o.
    destruct a as [v|].
    + split; [assumption | eexists; reflexivity].
    + destruct (IH st1 HI1) as [HI2 [a Ha]]. unfold outcome, final in *.
      destruct (for_ xs body st1) as [[o st2] ev2]; simpl in *. eauto.
Qed.

(** The outer handler of [send_email] lets nothing through, and is
    transparent around a computation that ends normally. *)
Lemma guarded_never_raises (m : M PyVal) : never_raises (guarded m).
Proof.
  apply never_raises_try. intros e. apply never_raises_log_then.
  intros st. eexists. reflexivity.
Qed.

Lemma guarded_run (m : M PyVal) (st st1 : St) (v : PyVal) (tr : list Event) :
  m st = (Val v, st1, tr) -> guarded m st = (Val v, st1, tr).
Proof. intros H. unfold guarded, try_except. rewrite H. reflexivity. Qed.

Lemma guarded_obeys (Inv : St -> Prop) (Q : Event -> Prop) (m : M PyVal) :
  (forall e, Q (EvLog ERROR (MsgSendError e))) ->
  obeys Inv Q m -> obeys Inv Q (guarded m).
Proof.
  intros HQ Hm. apply obeys_try; [assumption|].
  intros e st H. run. split; [assumption|]. repeat constructor. apply HQ.
Qed.

(** A retry loop over the attempts [i, ..., i + k - 1], the last of which
    is attempt [max_retries - 1], ends on a [return] unless it raises. *)
Lemma retry_loop_returns (body : Z -> M (option bool)) :
  retry_body body ->
  forall (k i : nat) (st : St),
    max_retries (self st) = Z.of_nat (i + k) -> (0 < k)%nat ->
    (exists b, outcome (for_ (Z.of_nat <$> seq i k) body st) = Val (Some b)) \/
    (exists e, outcome (for_ (Z.of_nat <$> seq i k) body st) = Exc e).
Proof.
  intros Hb. induction k as [|k IH]; intros i st Hn Hk; [lia|].
  simpl. rewrite run_bind.
  destruct (Hb (Z.of_nat i) st) as [Hm Ho]. unfold outcome, final in *.
  destruct (body (Z.of_nat i) st) as [[o st1] ev1]; simpl in *.
  destruct Ho as [-> | [-> | [e ->]]].
  - left. exists true. reflexivity.
  - destruct (Z.of_nat i <? max_retries (self st) - 1) eqn:Hlt.
    + apply Z.ltb_lt in Hlt.
      destruct (IH (S i) st1) as [[b Hbv] | [e He]]; [lia | lia | |];
        destruct (for_ _ body st1) as [[o st2] ev2]; simpl in *; eauto.
    + left. exists false. reflexivity.
  - right. eauto.
Qed.

Section Deliver.

Variable E : Env.
Variable message : MIMEMultipart.
Variable receivers : loc.

Lemma send_attempt_retry_body : retry_body (send_attempt E message receivers).
Proof.
  intros attempt st. unfold send_attempt, retry_or_give_up, sendmail. run.
  destruct (smtp_client (self st)) as [c|]; run.
  - destruct (as_string E message) as [e|text]; run.
    + retry_cases; eauto.
    + destruct (sendmail_fault E _ _ _ _ _); run.
      * retry_cases; eauto.
      * auto.
  - retry_cases; eauto.
Qed.

Lemma send_attempt_obeys (s : EmailSender) (h : gmap loc (list string)) (attempt : Z) :
  obeys (fun st => self st = s /\ heap st = h)
        (delivery_event E s h message receivers)
        (send_attempt E message receivers attempt).
Proof.
  intros st [Hs Hh]. unfold send_attempt, retry_or_give_up, sendmail. run.
  subst s h.
  destruct (smtp_client (self st)) as [c|] eqn:Hc; run.
  - destruct (as_string E message) as [e|text] eqn:Ht; run.
    + retry_cases; repeat constructor.
    + destruct (sendmail_fault E _ _ _ _ _); run.
      * retry_cases; repeat constructor; auto.
      * repeat constructor; auto.
  - retry_cases; repeat constructor.
Qed.

(** With a positive [max_retries], the loop ends on a [return], unless
    [time.sleep] raised. *)
Lemma deliver_returns_or_raises (st : St) :
  0 < max_retries (self st) ->
  (exists b, outcome (deliver E message receivers st) = Val (PyBool b)) \/
  (exists e, outcome (deliver E message receivers st) = Exc e).
Proof.
  intros Hn. unfold deliver. rewrite run_bind. unfold get_self. simpl.
  rewrite run_bind. unfold range.
  destruct (retry_loop_returns _ send_attempt_retry_body
              (Z.to_nat (max_retries (self st))) 0 st) as [[b Hb] | [e He]];
    [lia | lia | |];
    unfold outcome in *;
    destruct (for_ _ _ st) as [[o st1] ev1]; simpl in *; subst o;
    [left; exists b | right; exists e]; reflexivity.
Qed.

(** What the caller of [send_email] gets from the loop is a boolean. *)
Lemma deliver_returns_bool (st : St) :
  0 < max_retries (self st) ->
  exists b, outcome (guarded (deliver E message receivers) st) = Val (PyBool b).
Proof.
  intros Hn. unfold guarded, try_except, outcome.
  destruct (deliver_returns_or_raises st Hn) as [[b Hb] | [e He]];
    unfold outcome in *;
    destruct (deliver E message receivers st) as [[o st1] ev1]; simpl in *;
    subst o; eauto.
Qed.

Lemma deliver_obeys (s : EmailSender) (h : gmap loc (list string)) :
  obeys (fun st => self st = s /\ heap st = h)
        (delivery_event E s h message receivers)
        (guarded (deliver E message receivers)).
Proof.
  apply guarded_obeys; [intros; exact I|].
  unfold deliver. apply obeys_bind.
  { intros st H. run. auto. }
  intros s'. apply obeys_bind; [|intros r; apply obeys_ret].
  apply obeys_for. intros attempt. apply send_attempt_obeys.
Qed.

End Deliver.

(** ** Attachments *)

Section Attachments.

Variable E : Env.

Lemma add_parts_nil (m : MIMEMultipart) : add_parts m [] = m.
Proof. destruct m. unfold add_parts. simpl. rewrite app_nil_r. reflexivity. Qed.

Lemma add_parts_app (m : MIMEMultipart) (ps qs : list MimePart) :
  add_parts (add_parts m ps) qs = add_parts m (ps ++ qs).
Proof. unfold add_parts. simpl. rewrite app_assoc. reflexivity. Qed.

(** One file: the state is left alone, the message gains the part of
    the file, if any, and one record is logged. No exception escapes. *)
Lemma _add_attachment_run (m : MIMEMultipart) (file_path : string) (st : St) :
  _add_attachment E m file_path st =
  (Val (add_parts m (option_list (part_for E file_path))), st,
   [log_for E file_path]).
Proof.
  unfold _add_attachment, part_for, log_for, is_image_path. run.
  destruct (fs E file_path) as [|e|data]; run;
    rewrite ?add_parts_nil; try reflexivity.
  destruct (bool_decide _); run.
  - destruct (image_what E data); run; rewrite ?add_parts_nil; reflexivity.
  - reflexivity.
Qed.

Lemma add_attachments_run (paths : list string) :
  forall (m : MIMEMultipart) (st : St),
    add_attachments E m paths st =
    (Val (add_parts m (omap (part_for E) paths)), st, log_for E <$> paths).
Proof.
  induction paths as [|p ps IH]; intros m st; simpl.
  - rewrite add_parts_nil. reflexivity.
  - rewrite run_bind, _add_attachment_run, IH, add_parts_app.
    destruct (part_for E p); reflexivity.
Qed.

End Attachments.

(** ** build_message *)

Section Build.

Variable E : Env.

Lemma add_cc_run (m : MIMEMultipart) (r : loc) (cc : option loc) (st : St) :
  add_cc m r cc st =
  (Val match addresses (heap st) cc with
       | [] => m
       | l => set_header m "Cc" (PyStr.join ", " l)
       end,
   set_heap st (extended (heap st) r cc), []).
Proof.
  unfold add_cc, extended, addresses, set_heap.
  destruct cc as [c|]; run; [|destruct st; reflexivity].
  destruct (heap_get (heap st) c) eqn:Hc; run; [destruct st; reflexivity|].
  rewrite Hc. reflexivity.
Qed.

Lemma add_bcc_run (r : loc) (bcc : option loc) (st : St) :
  add_bcc r bcc st = (Val (), set_heap st (extended (heap st) r bcc), []).
Proof.
  unfold add_bcc, extended, addresses, set_heap.
  destruct bcc as [b|]; run; [|destruct st; reflexivity].
  destruct (heap_get (heap st) b) eqn:Hb; run; [destruct st; reflexivity|].
  rewrite Hb. reflexivity.
Qed.

(** The whole of [build_message]: the recipient list is gathered in
    place, the message gets its headers, its text parts and the parts
    of the files, and one record per file is logged. *)
Lemma build_message_run (receiver : Receiver) (subject content : string)
    (attachments : option (list string)) (html_content : option string)
    (sender_name : string) (cc bcc : option loc) (st : St) :
  build_message E receiver subject content attachments html_content
                sender_name cc bcc st =
  match receivers_of (heap st) receiver with
  | None => (Exc TypeError, built st (heap st), [])
  | Some (r, h0) =>
      let h1 := extended h0 r cc in
      let h2 := extended h1 r bcc in
      let paths := default [] attachments in
      (Val (add_parts
              (text_message (clock st) (email (config (self st))) subject
                            content html_content sender_name
                            (heap_get h0 r) (addresses h0 cc))
              (omap (part_for E) paths),
            r),
       built st h2, log_for E <$> paths)
  end.
Proof.
  unfold build_message, receivers_of, built.
  rewrite run_bind. unfold tick at 1. cbv iota beta.
  rewrite run_bind. unfold get_self at 1. cbv iota beta.
  rewrite run_bind.
  destruct receiver as [address | r | ]; [ | | reflexivity].
  all: unfold alloc, mret at 1, M_ret at 1; cbv iota beta zeta;
    rewrite run_bind; unfold deref at 1; cbv iota beta;
    rewrite run_bind, add_cc_run; cbv iota beta;
    rewrite run_bind, add_bcc_run; cbv iota beta;
    rewrite run_bind;
    destruct attachments as [[|p ps]|]; rewrite ?add_attachments_run;
    unfold mret, M_ret, set_heap, text_message; cbv iota beta;
    cbn [heap self clock];
    match goal with
    | |- context [addresses ?h ?o] => destruct (addresses h o)
    end;
    destruct (PyStr.truthy_opt html_content); simpl; rewrite ?app_nil_r;
    reflexivity.
Qed.

End Build.

(** ** send_email *)

Section SendEmail.

Variable E : Env.

(** [send_email] is [build_message] followed by [deliver] under the
    outer handler; when [", ".join] rejects the receiver, that handler
    returns [False]. *)
Lemma send_email_run (receiver : Receiver) (subject content : string)
    (attachments : option (list string)) (html_content : option string)
    (sender_name receiver_name : string) (cc bcc : option loc) (st : St) :
  send_email E receiver subject content attachments html_content
             sender_name receiver_name cc bcc st =
  match receivers_of (heap st) receiver with
  | None =>
      (Val (PyBool false), built st (heap st),
       [EvCall MSendEmail; EvLog ERROR (MsgSendError TypeError)])
  | Some (r, h0) =>
      let h2 := extended (extended h0 r cc) r bcc in
      let paths := default [] attachments in
      let message :=
        add_parts
          (text_message (clock st) (email (config (self st))) subject content
                        html_content sender_name
                        (heap_get h0 r) (addresses h0 cc))
          (omap (part_for E) paths) in
      let d := guarded (deliver E message r) (built st h2) in
      (outcome d, final d,
       EvCall MSendEmail :: (log_for E <$> paths) ++ events d)
  end.
Proof.
  unfold send_email. rewrite run_bind. unfold emit at 1. cbv iota beta.
  unfold try_except at 1. rewrite run_bind, build_message_run.
  destruct (receivers_of (heap st) receiver) as [[r h0]|]; [|reflexivity].
  cbv zeta iota beta. unfold guarded, try_except, outcome, final, events.
  match goal with
  | |- context [deliver E ?m r ?s] =>
      destruct (deliver E m r s) as [[[v|e] st1] ev1]
  end; simpl; rewrite ?app_assoc; reflexivity.
Qed.

(** Without a connection an attempt reaches no server, changes nothing
    and does not return [True]. *)
Lemma send_attempt_unconnected_safe (m : MIMEMultipart) (r : loc)
    (attempt : Z) (st : St) :
  smtp_client (self st) = None ->
  final (send_attempt E m r attempt st) = st /\
  outcome (send_attempt E m r attempt st) <> Val (Some true) /\
  Forall (fun ev => is_network ev = false)
         (events (send_attempt E m r attempt st)).
Proof.
  intros Hc. unfold send_attempt, retry_or_give_up. run. rewrite Hc. run.
  retry_cases; repeat split; try discriminate; repeat constructor.
Qed.

Lemma for_unconnected_safe (m : MIMEMultipart) (r : loc) (st : St) (xs : list Z) :
  smtp_client (self st) = None ->
  final (for_ xs (send_attempt E m r) st) = st /\
  outcome (for_ xs (send_attempt E m r) st) <> Val (Some true) /\
  Forall (fun ev => is_network ev = false)
         (events (for_ xs (send_attempt E m r) st)).
Proof.
  intros Hc. induction xs as [|x xs IH]; simpl.
  - repeat split; [discriminate | constructor].
  - rewrite run_bind.
    destruct (send_attempt_unconnected_safe m r x st Hc) as (Hf & Ho & Hev).
    unfold final, outcome, events in *.
    destruct (send_attempt E m r x st) as [[o1 st1] ev1]; simpl in *.
    subst st1. destruct o1 as [[b|]|e]; simpl.
    + repeat split; [assumption | rewrite app_nil_r; assumption].
    + destruct IH as (Hf' & Ho' & Hev').
      destruct (for_ xs (send_attempt E m r) st) as [[o st2] ev2]; simpl in *.
      repeat split; [assumption | assumption | apply Forall_app; auto].
    + repeat split; [discriminate | assumption].
Qed.

Lemma deliver_unconnected (m : MIMEMultipart) (r : loc) (st : St) :
  smtp_client (self st) = None -> 0 < max_retries (self st) ->
  exists evs,
    guarded (deliver E m r) st = (Val (PyBool false), st, evs) /\
    Forall (fun ev => is_network ev = false) evs.
Proof.
  intros Hc Hn.
  destruct (for_unconnected_safe m r st (range (max_retries (self st))) Hc)
    as (Hf & Ho & Hev).
  destruct (deliver_returns_or_raises E m r st Hn) as [[b Hb] | [e He]];
    revert Hb || revert He;
    unfold guarded, try_except, deliver; rewrite !run_bind;
    unfold get_self at 1 2; cbv iota beta; rewrite !run_bind;
    unfold final, outcome, events in *;
    destruct (for_ _ _ st) as [[[x|e'] st1] ev1]; simpl in *; subst st1;
    intros H; try discriminate.
  - destruct x as [[]|]; simpl in *; try congruence.
    eexists. split; [reflexivity|]. rewrite app_nil_r. assumption.
  - eexists. split; [reflexivity|].
    apply Forall_app. split; [assumption | repeat constructor].
Qed.

(** With a delay that [time.sleep] accepts, the attempts on a missing
    connection are these. *)
Lemma send_attempt_unconnected (m : MIMEMultipart) (r : loc) (attempt : Z)
    (st : St) :
  smtp_client (self st) = None ->
  sleeps_well st ->
  send_attempt E m r attempt st =
  (Val (if attempt <? max_retries (self st) - 1 then None else Some false),
   st,
   EvLog ERROR (MsgSendFailed (attempt + 1) AttributeError)
   :: if attempt <? max_retries (self st) - 1
      then [EvSleep (retry_delay (self st))]
      else []).
Proof.
  intros Hc Hd. unfold sleeps_well in Hd.
  unfold send_attempt, retry_or_give_up. run. rewrite Hc. run.
  destruct (attempt <? _); simpl; rewrite ?Hd; reflexivity.
Qed.

(** On a connection, an attempt whose message serialises begins by
    handing it to [sendmail]. *)
Lemma send_attempt_hands_over (m : MIMEMultipart) (r : loc) (attempt : Z)
    (st : St) (c : conn) (text : string) :
  smtp_client (self st) = Some c ->
  as_string E m = inr text ->
  exists fault rest,
    events (send_attempt E m r attempt st)
    = EvSendmail c (email (config (self st))) (heap_get (heap st) r) text fault
      :: rest.
Proof.
  intros Hc Htext. unfold send_attempt, retry_or_give_up, sendmail. run.
  rewrite Hc, Htext. run.
  destruct (sendmail_fault E _ _ _ _ _); run; retry_cases; eauto.
Qed.

Lemma for_events_cons {X R} (body : X -> M (option R)) (x : X) (xs : list X)
    (st : St) :
  exists rest, events (for_ (x :: xs) body st) = events (body x st) ++ rest.
Proof.
  simpl. rewrite run_bind. unfold events.
  destruct (body x st) as [[[[v|]|e] st1] ev1]; simpl.
  - eauto.
  - destruct (for_ xs body st1) as [[o st2] ev2]. simpl. eauto.
  - exists []. rewrite app_nil_r. reflexivity.
Qed.

Lemma guarded_events (m : M PyVal) (st : St) :
  exists rest, events (guarded m st) = events (m st) ++ rest.
Proof.
  unfold guarded, try_except, events.
  destruct (m st) as [[[v|e] st1] ev1]; simpl.
  - exists []. rewrite app_nil_r. reflexivity.
  - eauto.
Qed.

(** So a loop that runs at all hands the message over at least once. *)
Lemma deliver_hands_over (m : MIMEMultipart) (r : loc) (st : St) (c : conn)
    (text : string) :
  0 < max_retries (self st) ->
  smtp_client (self st) = Some c ->
  as_string E m = inr text ->
  exists fault rest,
    events (guarded (deliver E m r) st)
    = EvSendmail c (email (config (self st))) (heap_get (heap st) r) text fault
      :: rest.
Proof.
  intros Hn Hc Htext.
  destruct (guarded_events (deliver E m r) st) as [rest1 ->].
  assert (exists rest, events (deliver E m r st)
                       = events (for_ (range (max_retries (self st)))
                                      (send_attempt E m r) st) ++ rest)
    as [rest2 ->].
  { unfold deliver. rewrite run_bind. unfold get_self at 1. cbv iota beta.
    rewrite run_bind. unfold events.
    destruct (for_ _ _ st) as [[[x|e] st1] ev1]; simpl; eauto.
    exists []. rewrite app_nil_r. reflexivity. }
  unfold range.
  destruct (Z.to_nat (max_retries (self st))) as [|k] eqn:Hk; [lia|].
  assert (exists xs, Z.of_nat <$> seq 0 (S k) = 0 :: xs) as [xs ->]
    by (eexists; reflexivity).
  destruct (for_events_cons (send_attempt E m r) 0 xs st) as [rest3 ->].
  destruct (send_attempt_hands_over m r 0 st c text Hc Htext)
    as (fault & rest4 & ->).
  exists fault. eexists. simpl. reflexivity.
Qed.

End SendEmail.

(** ** The recipient list *)

Section Heap.

Implicit Types (h : gmap loc (list string)) (r : loc) (o : option loc).

Lemma heap_get_insert h r (l : list string) : heap_get (<[r := l]> h) r = l.
Proof. unfold heap_get. rewrite lookup_insert_eq. reflexivity. Qed.

Lemma heap_get_insert_ne h r r' (l : list string) :
  r <> r' -> heap_get (<[r := l]> h) r' = heap_get h r'.
Proof. intros Hne. unfold heap_get. rewrite lookup_insert_ne; auto. Qed.

(** Extending appends to the target... *)
Lemma heap_get_extended h r o :
  heap_get (extended h r o) r = heap_get h r ++ addresses h o.
Proof.
  unfold extended. destruct (addresses h o) as [|x l].
  - rewrite app_nil_r. reflexivity.
  - apply heap_get_insert.
Qed.

(** ... and leaves every other list object alone. *)
Lemma extended_delete h r o : delete r (extended h r o) = delete r h.
Proof.
  unfold extended. destruct (addresses h o) as [|x l]; [reflexivity|].
  apply delete_insert_eq.
Qed.

Lemma extended_lookup_ne h r o (l : loc) :
  l <> r -> extended h r o !! l = h !! l.
Proof.
  intros Hne. unfold extended. destruct (addresses h o); [reflexivity|].
  apply lookup_insert_ne. auto.
Qed.

(** A source read after an extension: the grown list when it is the
    target itself, its former content otherwise. *)
Lemma addresses_extended h r o o' :
  addresses (extended h r o) o' =
  if decide (o' = Some r) then heap_get h r ++ addresses h o
  else addresses h o'.
Proof.
  destruct (decide (o' = Some r)) as [-> | Hne].
  - simpl. apply heap_get_extended.
  - destruct o' as [r'|]; [|reflexivity]. simpl.
    unfold heap_get. rewrite extended_lookup_ne; [reflexivity|congruence].
Qed.

(** A list object that exists is not the one that a list display creates. *)
Lemma addresses_alloc h o (l : list string) :
  allocated h o -> addresses (<[fresh (dom h) := l]> h) o = addresses h o.
Proof.
  destruct o as [r|]; [|reflexivity]. simpl. intros Hr.
  apply heap_get_insert_ne. intros <-.
  apply (is_fresh (dom h)). apply elem_of_dom. assumption.
Qed.

End Heap.

Section Envelopes.

Variable E : Env.

Lemma envelopes_app (tr1 tr2 : list Event) :
  envelopes (tr1 ++ tr2) = envelopes tr1 ++ envelopes tr2.
Proof. apply omap_app. Qed.


Lemma log_for_is_log (p : string) : exists lvl msg, log_for E p = EvLog lvl msg.
Proof.
  unfold log_for. destruct (fs E p) as [|e|data]; eauto.
  destruct (is_image_path p); [destruct (image_what E data)|]; eauto.
Qed.

Lemma envelopes_logs (paths : list string) : envelopes (log_for E <$> paths) = [].
Proof.
  induction paths as [|p ps IH]; [reflexivity|].
  simpl. destruct (log_for_is_log p) as (lvl & msg & ->). exact IH.
Qed.


Lemma calls_logs (m : Method) (paths : list string) :
  calls m (log_for E <$> paths) = 0%nat.
Proof.
  induction paths as [|p ps IH]; [reflexivity|].
  simpl. destruct (log_for_is_log p) as (lvl & msg & ->). exact IH.
Qed.

Lemma delivery_events_envelopes (s : EmailSender) (h : gmap loc (list string))
    (m : MIMEMultipart) (r : loc) (tr : list Event) :
  Forall (delivery_event E s h m r) tr ->
  Forall (fun to_addrs => to_addrs = heap_get h r) (envelopes tr) /\
  Forall (fun msg => as_string E m = inr msg) (payloads tr) /\
  (forall meth, calls meth tr = 0%nat).
Proof.
  induction 1 as [|ev tr Hev _ (IH1 & IH2 & IH3)]; [repeat constructor|].
  destruct ev; simpl in *; try contradiction; auto.
  destruct Hev as (_ & _ & -> & Hm). repeat split; auto.
Qed.

(** What [deliver] does from the state that [build_message] leaves. *)
Lemma deliver_facts (m : MIMEMultipart) (r : loc) (st : St) :
  self (final (guarded (deliver E m r) st)) = self st /\
  heap (final (guarded (deliver E m r) st)) = heap st /\
  Forall (fun to_addrs => to_addrs = heap_get (heap st) r)
         (envelopes (events (guarded (deliver E m r) st))) /\
  Forall (fun msg => as_string E m = inr msg)
         (payloads (events (guarded (deliver E m r) st))) /\
  (forall meth, calls meth (events (guarded (deliver E m r) st)) = 0%nat).
Proof.
  destruct (deliver_obeys E m r (self st) (heap st) st) as [[Hs Hh] Hev];
    [split; reflexivity|].
  apply delivery_events_envelopes in Hev. tauto.
Qed.

End Envelopes.

Section Frame.

Variable E : Env.


Lemma send_email_heap (receiver : Receiver) (subject content : string)
    (attachments : option (list string)) (html_content : option string)
    (sender_name receiver_name : string) (cc bcc : option loc) (st : St) :
  heap (final (send_email E receiver subject content attachments html_content
                          sender_name receiver_name cc bcc st)) =
  match receivers_of (heap st) receiver with
  | Some (r, h0) => extended (extended h0 r cc) r bcc
  | None => heap st
  end.
Proof.
  rewrite send_email_run.
  destruct (receivers_of (heap st) receiver) as [[r h0]|]; [|reflexivity].
  cbv zeta.
  match goal with
  | |- context [guarded (deliver E ?m ?r) ?s] =>
      destruct (deliver_facts E m r s) as (_ & Hh & _)
  end.
  rewrite final_run, Hh. reflexivity.
Qed.

End Frame.

(** ** The [with] statement and [main] *)

Section Scope.

Variable E : Env.

Lemma calls_app (m : Method) (tr1 tr2 : list Event) :
  calls m (tr1 ++ tr2) = (calls m tr1 + calls m tr2)%nat.
Proof.
  induction tr1 as [|ev tr1 IH]; [reflexivity|].
  destruct ev as [m'| | | | | |]; simpl; try exact IH.
  destruct m, m'; simpl; rewrite ?IH; reflexivity.
Qed.

Lemma connect_attempt_obeys (cfg : EmailConfig) (attempt : Z) :
  obeys (fun st => config (self st) = cfg) connect_event
        (connect_attempt E attempt).
Proof.
  intros st H. unfold connect_attempt, retry_or_give_up, SMTP_SSL, login. run.
  destruct (ssl_fault E _ _ _); run.
  - retry_cases; repeat constructor; assumption.
  - destruct (login_fault E _ _ _ _); run.
    + retry_cases; repeat constructor; assumption.
    + repeat constructor; assumption.
Qed.

Lemma connect_obeys (cfg : EmailConfig) :
  obeys (fun st => config (self st) = cfg) connect_event (connect E).
Proof.
  unfold connect. apply obeys_bind.
  { intros st H. run. repeat constructor. assumption. }
  intros _. apply obeys_bind.
  { intros st H. run. auto. }
  intros s. apply obeys_bind; [|intros r; apply obeys_ret].
  apply obeys_for. intros attempt. apply connect_attempt_obeys.
Qed.

Lemma connect_event_calls (tr : list Event) :
  Forall connect_event tr -> calls MClose tr = 0%nat.
Proof.
  induction 1 as [|ev tr Hev _ IH]; [reflexivity|].
  destruct ev as [[]| | | | | |]; simpl in *; try contradiction; assumption.
Qed.

Lemma connect_attempt_returns (attempt : Z) :
  returns_under sleeps_well (connect_attempt E attempt).
Proof.
  intros st H. unfold sleeps_well in *.
  unfold connect_attempt, retry_or_give_up, SMTP_SSL, login. run.
  destruct (ssl_fault E _ _ _); run.
  - destruct (attempt <? _); simpl; rewrite ?H; simpl; eauto.
  - destruct (login_fault E _ _ _ _); run.
    + destruct (attempt <? _); simpl; rewrite ?H; simpl; eauto.
    + eauto.
Qed.

(** With a delay that [time.sleep] accepts, as the 2 of [__init__],
    [connect] ends normally. *)
Lemma connect_returns (st : St) :
  sleeps_well st -> exists v, outcome (connect E st) = Val v.
Proof.
  intros Hd. unfold connect. rewrite run_bind. unfold emit at 1. cbv iota beta.
  rewrite run_bind. unfold get_self at 1. cbv iota beta. rewrite run_bind.
  destruct (returns_for sleeps_well _ (range (max_retries (self st)))
              connect_attempt_returns st Hd) as [_ [a Ha]].
  unfold outcome in *.
  destruct (for_ _ _ st) as [[o st1] ev1]; simpl in *. subst o. eauto.
Qed.

(** The [with] statement: construction, [connect], the body, then
    [close] in the state that the body leaves, however the body ends;
    the statement ends as the body does. *)
Lemma with_EmailSender_run {A} (cfg : EmailConfig) (body : M A) (st : St) :
  let c := connect E (entering cfg st) in
  let b := body (final c) in
  let x := close E (final b) in
  with_EmailSender E cfg body st =
  (outcome b, final x, events c ++ events b ++ events x).
Proof.
  intros c b x. unfold with_EmailSender, enter, exit_.
  rewrite run_bind. unfold set_self at 1. cbv iota beta.
  fold (entering cfg st). rewrite !run_bind.
  destruct (connect_returns (entering cfg st)) as [v Hv]; [reflexivity|].
  subst x b c. unfold outcome, final, events in *.
  destruct (connect E (entering cfg st)) as [[o st1] ev1]. simpl in *. subst o.
  unfold mret at 1, M_ret at 1. cbv iota beta. rewrite !run_bind.
  unfold catch at 1.
  destruct (body st1) as [[[a|e] st2] ev2]; cbn [fst snd];
    rewrite run_bind, close_run; simpl;
    destruct (smtp_client (self st2)); simpl; rewrite ?app_nil_r;
    reflexivity.
Qed.

Lemma calls_close (st : St) : calls MClose (events (close E st)) = 1%nat.
Proof.
  rewrite close_run. destruct (smtp_client (self st)); reflexivity.
Qed.

Lemma send_email_calls_close (receiver : Receiver) (subject content : string)
    (attachments : option (list string)) (html_content : option string)
    (sender_name receiver_name : string) (cc bcc : option loc) (st : St) :
  calls MClose (events (send_email E receiver subject content attachments
                          html_content sender_name receiver_name cc bcc st))
  = 0%nat.
Proof.
  rewrite send_email_run.
  destruct (receivers_of (heap st) receiver) as [[r h0]|]; [|reflexivity].
  cbv zeta.
  match goal with
  | |- context [guarded (deliver E ?m ?r) ?s] =>
      destruct (deliver_facts E m r s) as (_ & _ & _ & _ & Hcalls)
  end.
  rewrite events_run. simpl. rewrite calls_app, calls_logs, Hcalls.
  reflexivity.
Qed.

Lemma send_email_never_raises (receiver : Receiver) (subject content : string)
    (attachments : option (list string)) (html_content : option string)
    (sender_name receiver_name : string) (cc bcc : option loc) :
  never_raises (send_email E receiver subject content attachments
                  html_content sender_name receiver_name cc bcc).
Proof.
  intros st. rewrite send_email_run.
  destruct (receivers_of (heap st) receiver) as [[r h0]|]; [|eauto].
  cbv zeta.
  match goal with
  | |- context [guarded (deliver E ?m ?r) ?s] =>
      destruct (guarded_never_raises (deliver E m r) s) as [a Ha]
  end.
  exists a. exact Ha.
Qed.

(** The body of [main] ends normally and does not call [close]. *)
Lemma main_body_run (st : St) :
  outcome (main_body E st) = Val () /\
  calls MClose (events (main_body E st)) = 0%nat.
Proof.
  unfold main_body. rewrite !run_bind. unfold alloc. cbv iota beta zeta.
  rewrite !run_bind. cbv iota beta zeta.
  match goal with
  | |- context [send_email E ?a ?b ?c ?d ?e ?f ?g ?h ?i ?s] =>
      destruct (send_email_never_raises a b c d e f g h i s) as [v Hv];
      pose proof (send_email_calls_close a b c d e f g h i s) as Hc;
      unfold outcome, events in Hv, Hc;
      destruct (send_email E a b c d e f g h i s) as [[o st1] ev1]
  end.
  simpl in Hv, Hc. subst o. cbv iota beta.
  destruct (py_truthy v); unfold log, emit, outcome, events; simpl;
    rewrite calls_app, Hc; split; reflexivity.
Qed.

End Scope.

Section Sender.

Variable E : Env.

Lemma send_email_self (receiver : Receiver) (subject content : string)
    (attachments : option (list string)) (html_content : option string)
    (sender_name receiver_name : string) (cc bcc : option loc) (st : St) :
  self (final (send_email E receiver subject content attachments html_content
                          sender_name receiver_name cc bcc st)) = self st.
Proof.
  rewrite send_email_run.
  destruct (receivers_of (heap st) receiver) as [[r h0]|]; [|reflexivity].
  cbv zeta.
  match goal with
  | |- context [guarded (deliver E ?m ?r) ?s] =>
      destruct (deliver_facts E m r s) as (Hs & _)
  end.
  rewrite final_run, Hs. reflexivity.
Qed.


(** With a configuration, [main] is its [with] statement. *)
Lemma main_run (cfg : EmailConfig) (st : St) :
  EmailConfig_init E = inr cfg ->
  main E st =
  (Val (), final (with_EmailSender E cfg (main_body E) st),
   events (with_EmailSender E cfg (main_body E) st)).
Proof.
  intros Hcfg. unfold main, EmailConfig_new, try_except. rewrite Hcfg.
  rewrite run_bind. unfold mret at 1, M_ret at 1. cbv iota beta.
  pose proof (with_EmailSender_run E cfg (main_body E) st) as Hw.
  cbv zeta in Hw.
  destruct (main_body_run E (final (connect E (entering cfg st)))) as [Ho _].
  rewrite Ho in Hw. rewrite Hw. reflexivity.
Qed.

End Sender.

(** ** Retry loops, for any number of attempts *)



Section RetryShapes.

Variable E : Env.



Lemma send_steps_logs (paths : list string) : send_steps (log_for E <$> paths) = [].
Proof.
induction paths as [|p ps IH]; [reflexivity|].
unfold send_steps in *. simpl.
destruct (log_for_is_log E p) as (lvl & msg & ->). exact IH.
Qed.

Lemma sleeps_logs (paths : list string) : sleeps (log_for E <$> paths) = [].
Proof.
induction paths as [|p ps IH]; [reflexivity|].
unfold sleeps in *. simpl.
destruct (log_for_is_log E p) as (lvl & msg & ->). exact IH.
Qed.

(** [connect] and [deliver] are their loops. *)
Lemma connect_run (st : St) :
connect E st =
let r := for_ (range (max_retries (self st))) (connect_attempt E) st in
(match outcome r with Val x => Val (returned x) | Exc e => Exc e end,
 final r, EvCall MConnect :: events r).
Proof.
unfold connect, outcome, final, events. run.
destruct (for_ _ _ st) as [[[x|e] st1] ev1]; simpl;
  rewrite ?app_nil_r; reflexivity.
Qed.

Lemma deliver_run (message : MIMEMultipart) (receivers : loc) (st : St) :
deliver E message receivers st =
let r := for_ (range (max_retries (self st)))
              (send_attempt E message receivers) st in
(match outcome r with Val x => Val (returned x) | Exc e => Exc e end,
 final r, events r).
Proof.
unfold deliver, outcome, final, events. run.
destruct (for_ _ _ st) as [[[x|e] st1] ev1]; simpl;
  rewrite ?app_nil_r; reflexivity.
Qed.

End RetryShapes.

(** ** Deliveries that cannot reach the transport *)

Section Stuck.

Variable E : Env.

Lemma send_attempt_unserialisable (m : MIMEMultipart) (r : loc) (attempt : Z)
  (st : St) (c : conn) (e : Exn) :
smtp_client (self st) = Some c ->
as_string E m = inl e ->
sleeps_well st ->
send_attempt E m r attempt st =
(Val (if attempt <? max_retries (self st) - 1 then None else Some false),
 st,
 EvLog ERROR (MsgSendFailed (attempt + 1) e)
 :: if attempt <? max_retries (self st) - 1
    then [EvSleep (retry_delay (self st))]
    else []).
Proof.
intros Hc He Hd. unfold sleeps_well in Hd.
unfold send_attempt, retry_or_give_up. run. rewrite Hc, He. run.
destruct (attempt <? _); simpl; rewrite ?Hd; reflexivity.
Qed.

(** A loop all of whose attempts fail before the transport, in a state
  that they leave as it is. *)
Lemma for_stuck (m : MIMEMultipart) (r : loc) (st : St) (e : Exn) :
(forall attempt,
   send_attempt E m r attempt st =
   (Val (if attempt <? max_retries (self st) - 1 then None else Some false),
    st,
    EvLog ERROR (MsgSendFailed (attempt + 1) e)
    :: if attempt <? max_retries (self st) - 1
       then [EvSleep (retry_delay (self st))]
       else [])) ->
forall k i : nat,
  max_retries (self st) = Z.of_nat (i + k) -> (0 < k)%nat ->
  exists evs,
    for_ (Z.of_nat <$> seq i k) (send_attempt E m r) st
    = (Val (Some false), st, evs) /\
    Forall (fun ev => is_network ev = false) evs /\
    sleeps evs = replicate (k - 1) (retry_delay (self st)).
Proof.
intros Hstuck. induction k as [|k IH]; intros i Hn Hk; [lia|].
simpl. rewrite run_bind, Hstuck.
destruct (Z.of_nat i <? max_retries (self st) - 1) eqn:Hlt.
- apply Z.ltb_lt in Hlt.
  destruct (IH (S i)) as (evs & Hrun & Hev & Hsl); [lia | lia |].
  cbv iota beta. unfold fmap in Hrun. rewrite Hrun.
  eexists. split; [reflexivity|]. split.
  + repeat constructor. assumption.
  + change (sleeps ([EvLog ERROR (MsgSendFailed (Z.of_nat i + 1) e);
                     EvSleep (retry_delay (self st))] ++ evs))
      with (retry_delay (self st) :: sleeps evs).
    rewrite Hsl. destruct k as [|k]; [lia|].
    simpl. rewrite Nat.sub_0_r. reflexivity.
- apply Z.ltb_ge in Hlt. assert (k = 0%nat) as -> by lia.
  eexists. split; [reflexivity|]. split; [repeat constructor | reflexivity].
Qed.

Lemma deliver_stuck (m : MIMEMultipart) (r : loc) (st : St) :
0 < max_retries (self st) ->
sleeps_well st ->
smtp_client (self st) = None \/ (exists e, as_string E m = inl e) ->
exists evs,
  deliver E m r st = (Val (PyBool false), st, evs) /\
  Forall (fun ev => is_network ev = false) evs /\
  sleeps evs = replicate (Z.to_nat (max_retries (self st) - 1))
                         (retry_delay (self st)).
Proof.
intros Hn Hd Hcause.
assert (exists e, forall attempt,
   send_attempt E m r attempt st =
   (Val (if attempt <? max_retries (self st) - 1 then None else Some false),
    st,
    EvLog ERROR (MsgSendFailed (attempt + 1) e)
    :: if attempt <? max_retries (self st) - 1
       then [EvSleep (retry_delay (self st))]
       else [])) as [e Hstuck].
{ destruct Hcause as [Hc | [e He]].
  - exists AttributeError. intros attempt.
    apply send_attempt_unconnected; assumption.
  - destruct (smtp_client (self st)) as [c|] eqn:Hc.
    + exists e. intros attempt.
      apply (send_attempt_unserialisable m r attempt st c e Hc He Hd).
    + exists AttributeError. intros attempt.
      apply send_attempt_unconnected; assumption. }
destruct (for_stuck m r st e Hstuck (Z.to_nat (max_retries (self st))) 0)
  as (evs & Hrun & Hev & Hsl); [lia | lia |].
exists evs. rewrite deliver_run. cbv zeta. unfold range. rewrite Hrun.
split; [reflexivity|]. split; [assumption|].
rewrite Hsl. f_equal. lia.
Qed.

Lemma network_logs (paths : list string) :
Forall (fun ev => is_network ev = false) (log_for E <$> paths).
Proof.
apply Forall_fmap, Forall_forall. intros p _. simpl.
destruct (log_for_is_log E p) as (lvl & msg & ->). reflexivity.
Qed.

Lemma send_email_stuck_facts (receiver : Receiver) (subject content : string)
  (attachments : option (list string)) (html_content : option string)
  (sender_name receiver_name : string) (cc bcc : option loc) (st : St) :
0 < max_retries (self st) ->
sleeps_well st ->
receiver <> RInvalid ->
smtp_client (self st) = None \/
(exists m r e,
   outcome (build_message E receiver subject content attachments html_content
                          sender_name cc bcc st) = Val (m, r) /\
   as_string E m = inl e) ->
outcome (send_email E receiver subject content attachments html_content
                    sender_name receiver_name cc bcc st)
= Val (PyBool false) /\
Forall (fun ev => is_network ev = false)
       (events (send_email E receiver subject content attachments
                  html_content sender_name receiver_name cc bcc st)) /\
sleeps (events (send_email E receiver subject content attachments
                  html_content sender_name receiver_name cc bcc st))
= replicate (Z.to_nat (max_retries (self st) - 1)) (retry_delay (self st)).
Proof.
intros Hn Hd Hrecv Hcause. rewrite send_email_run.
rewrite build_message_run in Hcause.
destruct (receivers_of (heap st) receiver) as [[r h0]|] eqn:Hr;
  [|destruct receiver; simpl in Hr; congruence].
cbv zeta in *. rewrite outcome_run in Hcause.
match goal with
| |- context [guarded (deliver E ?m r) ?s] =>
    destruct (deliver_stuck m r s) as (evs & Hrun & Hev & Hsl);
      [ exact Hn | exact Hd
      | destruct Hcause as [Hc | (m' & r' & e & [= <- <-] & He)];
        [left; exact Hc | right; exists e; exact He]
      | ];
    rewrite (guarded_run _ _ _ _ _ Hrun)
end.
unfold outcome, events. simpl. split; [reflexivity|]. split.
- constructor; [reflexivity|]. apply Forall_app. split; [|assumption].
  apply network_logs.
- change (EvCall MSendEmail :: ?l) with ([EvCall MSendEmail] ++ l).
  unfold sleeps in *. rewrite !omap_app.
  pose proof (sleeps_logs E (default [] attachments)) as Hlogs.
  unfold sleeps in Hlogs. rewrite Hlogs. simpl. exact Hsl.
Qed.

End Stuck.

(** ** What the methods reach *)

Section Reach.

Variable E : Env.

Lemma delivery_event_send_event (s : EmailSender) (h : gmap loc (list string))
  (m : MIMEMultipart) (r : loc) (ev : Event) :
delivery_event E s h m r ev -> send_event s ev.
Proof. destruct ev; simpl; tauto. Qed.

Lemma connect_attempt_configured (cfg : EmailConfig) (attempt : Z) :
obeys (fun st => config (self st) = cfg) (configured_event cfg)
      (connect_attempt E attempt).
Proof.
intros st H. unfold connect_attempt, retry_or_give_up, SMTP_SSL, login. run.
subst cfg.
destruct (ssl_fault E _ _ _); run.
- retry_cases; repeat constructor.
- destruct (login_fault E _ _ _ _); run.
  + retry_cases; repeat constructor.
  + repeat constructor.
Qed.




End Reach.

Section MainFacts.

Variable E : Env.

Lemma send_email_events (receiver : Receiver) (subject content : string)
  (attachments : option (list string)) (html_content : option string)
  (sender_name receiver_name : string) (cc bcc : option loc) (st : St) :
Forall (send_event (self st))
       (events (send_email E receiver subject content attachments
                  html_content sender_name receiver_name cc bcc st)).
Proof.
rewrite send_email_run.
destruct (receivers_of (heap st) receiver) as [[r h0]|];
  [|repeat constructor].
cbv zeta.
match goal with
| |- context [guarded (deliver E ?m r) ?s] =>
    destruct (deliver_obeys E m r (self s) (heap s) s) as [_ Hev];
      [split; reflexivity|]
end.
rewrite events_run. constructor; [reflexivity|].
apply Forall_app. split.
- apply Forall_fmap, Forall_forall. intros p _. simpl.
  destruct (log_for_is_log E p) as (lvl & msg & ->). exact I.
- eapply Forall_impl; [exact Hev|]. intros ev Hd.
  apply delivery_event_send_event in Hd. exact Hd.
Qed.

Lemma sleeps_app (tr1 tr2 : list Event) : sleeps (tr1 ++ tr2) = sleeps tr1 ++ sleeps tr2.
Proof. apply omap_app. Qed.

Lemma filter_network_none (tr : list Event) :
Forall (fun ev => is_network ev = false) tr -> List.filter is_network tr = [].
Proof.
induction 1 as [|ev tr Hev _ IH]; [reflexivity|].
simpl. rewrite Hev. exact IH.
Qed.

(** The body of [main]: it ends normally, leaves the sender as it is and
  reaches the server through [sendmail] only; without a connection it
  reaches no one and logs the failure. *)
Lemma main_body_facts (st : St) :
outcome (main_body E st) = Val () /\
self (final (main_body E st)) = self st /\
Forall (send_event (self st)) (events (main_body E st)) /\
(smtp_client (self st) = None -> 0 < max_retries (self st) ->
 sleeps_well st ->
 Forall (fun ev => is_network ev = false) (events (main_body E st)) /\
 sleeps (events (main_body E st))
 = replicate (Z.to_nat (max_retries (self st) - 1)) (retry_delay (self st)) /\
 EvLog ERROR MsgMainFailure ∈ events (main_body E st)).
Proof.
unfold main_body. rewrite !run_bind. unfold alloc. cbv iota beta zeta.
rewrite !run_bind. cbv iota beta zeta.
match goal with
| |- context [send_email E ?a ?b ?c ?d ?e ?f ?g ?h ?i ?s] =>
    destruct (send_email_never_raises E a b c d e f g h i s) as [v Hv];
    pose proof (send_email_events a b c d e f g h i s) as Hev;
    pose proof (send_email_self E a b c d e f g h i s) as Hself;
    pose proof (fun H1 H2 H3 H4 =>
                  send_email_stuck_facts E a b c d e f g h i s H1 H2 H3 H4)
      as Hstuck;
    unfold outcome, events, final in Hv, Hev, Hself, Hstuck;
    destruct (send_email E a b c d e f g h i s) as [[o st1] ev1]
end.
simpl in Hv, Hev, Hself, Hstuck. subst o. cbv iota beta.
unfold outcome, final, events.
destruct (py_truthy v) eqn:Hb; unfold log, emit; simpl;
  (split; [reflexivity|]); (split; [assumption|]);
  (split; [apply Forall_app; split; [assumption | repeat constructor]|]);
  intros Hc Hn Hd;
  destruct Hstuck as (Hout & Hnet & Hsl);
    try assumption; try discriminate; try (left; assumption).
- injection Hout as ->. discriminate.
- split; [apply Forall_app; split; [assumption | repeat constructor]|].
  split.
  + rewrite sleeps_app, Hsl. simpl. apply app_nil_r.
  + apply elem_of_app. right. constructor.
Qed.

End MainFacts.

(** ** [connect] on a sender as [__init__] builds it *)

(** Runs the three attempts of [connect], splitting on what the server
    answers. *)
Ltac connect_cases E :=
  unfold connect, connect_attempt, retry_or_give_up, SMTP_SSL, login, range;
  run;
  repeat
    (match goal with
     | |- context [ssl_fault E ?t ?a ?b] =>
         destruct (ssl_fault E t a b) eqn:?; run
     | |- context [login_fault E ?t ?a ?b ?c] =>
         destruct (login_fault E t a b c) eqn:?; run
     | |- context [sleep_fault 2] =>
         change (sleep_fault 2) with (@None Exn); run
     end).

Section ConnectThrice.

Variable E : Env.

(** The client that [connect] leaves is the connection of its last login,
  successful or not; [connect] quits nothing; it leaves a client as
  soon as it has opened a connection. *)
Lemma connect_client_facts (st : St) :
constructed (self st) ->
match last_login (events (connect E st)) with
| Some (c, fault) =>
    smtp_client (self (final (connect E st))) = Some c /\
    (outcome (connect E st) = Val (PyBool true) <-> fault = None)
| None =>
    smtp_client (self (final (connect E st))) = smtp_client (self st) /\
    outcome (connect E st) = Val (PyBool false)
end /\
quits (events (connect E st)) = 0%nat /\
(opened (events (connect E st)) = 0%nat ->
 smtp_client (self (final (connect E st))) = smtp_client (self st)) /\
((0 < opened (events (connect E st)))%nat ->
 is_Some (smtp_client (self (final (connect E st))))) /\
constructed (self (final (connect E st))) /\
config (self (final (connect E st))) = config (self st).
Proof.
intros [Hn Hd]. destruct st as [[cfg cl n d] h t]. simpl in Hn, Hd. subst n d.
connect_cases E;
  unfold last_login, quits, opened, constructed; simpl;
  repeat split; intros; eauto; try discriminate; try lia.
Qed.

(** Out of reach: three connections are tried, two seconds apart, and the
  sender is left without a client. *)
Lemma connect_unreachable (st : St) :
constructed (self st) ->
(forall t, ssl_fault E t (smtp_server (config (self st)))
                     (smtp_port (config (self st))) <> None) ->
outcome (connect E st) = Val (PyBool false) /\
self (final (connect E st)) = self st /\
List.filter is_network (events (connect E st))
= (fun t => EvSMTP_SSL (smtp_server (config (self st)))
                       (smtp_port (config (self st)))
                       (ssl_fault E t (smtp_server (config (self st)))
                                  (smtp_port (config (self st)))))
  <$> [clock st; S (clock st); S (S (clock st))] /\
sleeps (events (connect E st)) = [2; 2].
Proof.
intros [Hn Hd] Hdown. destruct st as [[cfg cl n d] h t].
simpl in Hn, Hd, Hdown. subst n d.
connect_cases E;
  try match goal with
      | H : ssl_fault E ?t _ _ = None |- _ => destruct (Hdown t H)
      end.
simpl. repeat split; reflexivity.
Qed.

End ConnectThrice.

(** ** Files that give no part *)

Section Skipped.

Variable E : Env.

(** A path that contributes no part changes nothing but the trace, by
  the one record it leaves. *)
Lemma path_skipped (receiver : Receiver) (subject content : string)
  (before after : list string) (file_path : string)
  (html_content : option string) (sender_name receiver_name : string)
  (cc bcc : option loc) (st : St) :
part_for E file_path = None ->
receiver <> RInvalid ->
let send paths :=
  send_email E receiver subject content (Some paths) html_content
             sender_name receiver_name cc bcc st in
let build paths :=
  build_message E receiver subject content (Some paths) html_content
                sender_name cc bcc st in
outcome (build (before ++ file_path :: after)) = outcome (build (before ++ after)) /\
outcome (send (before ++ file_path :: after)) = outcome (send (before ++ after)) /\
final (send (before ++ file_path :: after)) = final (send (before ++ after)) /\
exists pre post,
  events (send (before ++ file_path :: after))
  = pre ++ log_for E file_path :: post /\
  events (send (before ++ after)) = pre ++ post.
Proof.
intros Hnone Hrecv send build. unfold send, build.
assert (omap (part_for E) (before ++ file_path :: after)
        = omap (part_for E) (before ++ after)) as Hparts.
{ rewrite !omap_app. simpl. rewrite Hnone. reflexivity. }
rewrite !build_message_run, !send_email_run.
destruct (receivers_of (heap st) receiver) as [[r h0]|] eqn:Hr;
  [|destruct receiver; simpl in Hr; congruence].
cbv zeta. simpl default. rewrite Hparts.
repeat split.
exists (EvCall MSendEmail :: (log_for E <$> before)).
eexists. rewrite !events_run.
rewrite !fmap_app, <- !app_assoc. simpl. split; reflexivity.
Qed.

End Skipped.

(** ** When everything goes through *)

Section FirstTry.

Variable E : Env.

Lemma connect_first_try (st : St) :
0 < max_retries (self st) ->
ssl_fault E (clock st) (smtp_server (config (self st)))
          (smtp_port (config (self st))) = None ->
login_fault E (S (clock st)) (clock st) (email (config (self st)))
            (password (config (self st))) = None ->
connect E st =
(Val (PyBool true),
 {| self := {| config := config (self st); smtp_client := Some (clock st);
               max_retries := max_retries (self st);
               retry_delay := retry_delay (self st) |};
    heap := heap st; clock := S (S (clock st)) |},
 [EvCall MConnect;
  EvSMTP_SSL (smtp_server (config (self st))) (smtp_port (config (self st))) None;
  EvLogin (clock st) (email (config (self st))) (password (config (self st))) None;
  EvLog INFO MsgConnected]).
Proof.
intros Hn Hssl Hlogin. rewrite connect_run. cbv zeta. unfold range.
destruct (Z.to_nat (max_retries (self st))) as [|k] eqn:Hk; [lia|].
simpl. rewrite run_bind.
unfold connect_attempt, SMTP_SSL, login. run. rewrite Hssl. run.
rewrite Hlogin. reflexivity.
Qed.

Lemma deliver_first_try (m : MIMEMultipart) (r : loc) (st : St) (c : conn)
  (text : string) :
0 < max_retries (self st) ->
smtp_client (self st) = Some c ->
as_string E m = inr text ->
sendmail_fault E (clock st) c (email (config (self st)))
               (heap_get (heap st) r) text = None ->
deliver E m r st =
(Val (PyBool true),
 {| self := self st; heap := heap st; clock := S (clock st) |},
 [EvSendmail c (email (config (self st))) (heap_get (heap st) r) text None;
  EvLog INFO (MsgSent (heap_get (heap st) r))]).
Proof.
intros Hn Hc Htext Hacc. rewrite deliver_run. cbv zeta. unfold range.
destruct (Z.to_nat (max_retries (self st))) as [|k] eqn:Hk; [lia|].
simpl. rewrite run_bind.
unfold send_attempt, sendmail. run. rewrite Hc, Htext. run.
rewrite Hacc. reflexivity.
Qed.

Lemma filter_network_logs (paths : list string) :
List.filter is_network (log_for E <$> paths) = [].
Proof. apply filter_network_none, network_logs. Qed.

(** The send step of [main] on a connection that accepts the message. *)
Lemma main_body_delivers (st : St) (c : conn) (text : string) :
0 < max_retries (self st) ->
smtp_client (self st) = Some c ->
as_string E (main_message E (email (config (self st))) (clock st)) = inr text ->
sendmail_fault E (S (clock st)) c (email (config (self st)))
               ["dong.cheng@ythyjx.com"; "support@ythyjx.com"] text = None ->
  List.filter is_network (events (main_body E st))
  = [EvSendmail c (email (config (self st)))
                ["dong.cheng@ythyjx.com"; "support@ythyjx.com"] text None] /\
  sleeps (events (main_body E st)) = [] /\
  EvLog INFO MsgMainSuccess ∈ events (main_body E st).
Proof.
intros Hn Hc Hser Hacc.
unfold main_body. rewrite !run_bind. unfold alloc. cbv iota beta zeta.
rewrite !run_bind. cbv iota beta zeta.
rewrite send_email_run. cbn [receivers_of heap]. cbv zeta.
set (r1 := fresh (dom (heap st))).
set (h1 := <[r1 := ["dong.cheng@ythyjx.com"]]> (heap st)).
set (r2 := fresh (dom h1)).
set (h2 := <[r2 := ["support@ythyjx.com"]]> h1).
assert (r2 <> r1) as Hne.
{ intros Heq. apply (is_fresh (dom h1)). fold r2. rewrite Heq.
  apply elem_of_dom. unfold h1. rewrite lookup_insert_eq. eauto. }
assert (heap_get (extended (extended h2 r1 (Some r2)) r1 None) r1
        = ["dong.cheng@ythyjx.com"; "support@ythyjx.com"]) as Hto.
{ rewrite !heap_get_extended. simpl addresses. rewrite app_nil_r.
  unfold h2. rewrite heap_get_insert, heap_get_insert_ne by assumption.
  unfold h1. rewrite heap_get_insert. reflexivity. }
assert (heap_get h2 r1 = ["dong.cheng@ythyjx.com"]) as Hr1.
{ unfold h2. rewrite heap_get_insert_ne by assumption.
  unfold h1. apply heap_get_insert. }
assert (addresses h2 (Some r2) = ["support@ythyjx.com"]) as Hr2.
{ unfold h2. apply heap_get_insert. }
rewrite Hr1, Hr2. fold (main_message E (email (config (self st))) (clock st)).
rewrite <- Hto in Hacc.
match goal with
| |- context [guarded (deliver E ?m r1) ?s] =>
    rewrite (guarded_run _ _ _ _ _
               (deliver_first_try m r1 s c text Hn Hc Hser Hacc))
end.
rewrite outcome_run, final_run, events_run. cbn [heap built self].
rewrite Hto. cbn [py_truthy]. unfold log, emit.
rewrite !events_run.
change (EvCall MSendEmail :: ?l) with ([EvCall MSendEmail] ++ l).
rewrite !List.filter_app, !sleeps_app, filter_network_logs, sleeps_logs.
repeat split; try reflexivity.
rewrite !app_nil_l. apply elem_of_app. right. apply list_elem_of_here.
Qed.

End FirstTry.

(** ** Files and retries *)

Section Once.

Variable E : Env.

Lemma send_attempt_no_file (m : MIMEMultipart) (r : loc) (attempt : Z) :
obeys (fun _ => True) (fun ev => is_attachment_log ev = false)
      (send_attempt E m r attempt).
Proof.
intros st _. unfold send_attempt, retry_or_give_up, sendmail. run.
destruct (smtp_client (self st)) as [c|]; run.
- destruct (as_string E m) as [e|text]; run.
  + retry_cases; repeat constructor.
  + destruct (sendmail_fault E _ _ _ _ _); run.
    * retry_cases; repeat constructor.
    * repeat constructor.
- retry_cases; repeat constructor.
Qed.

Lemma deliver_no_file (m : MIMEMultipart) (r : loc) (st : St) :
List.filter is_attachment_log (events (guarded (deliver E m r) st)) = [].
Proof.
assert (obeys (fun _ => True) (fun ev => is_attachment_log ev = false)
              (guarded (deliver E m r))) as Hob.
{ apply guarded_obeys; [reflexivity|].
  unfold deliver. apply obeys_bind; [intros s _; run; auto|].
  intros s. apply obeys_bind; [|intros x; apply obeys_ret].
  apply obeys_for, send_attempt_no_file. }
destruct (Hob st I) as [_ Hev].
induction Hev as [|ev tr Hev _ IH]; [reflexivity|].
simpl. rewrite Hev. exact IH.
Qed.

Lemma filter_attachment_logs (paths : list string) :
List.filter is_attachment_log (log_for E <$> paths) = log_for E <$> paths.
Proof.
assert (Forall (fun ev => is_attachment_log ev = true) (log_for E <$> paths))
  as Hall.
{ apply Forall_fmap, Forall_forall. intros p _. simpl.
  unfold log_for. destruct (fs E p) as [|e|data]; try reflexivity.
  destruct (is_image_path p); [destruct (image_what E data)|]; reflexivity. }
induction Hall as [|ev tr Hev _ IH]; [reflexivity|].
simpl. rewrite Hev, IH. reflexivity.
Qed.

End Once.

(** * The claims *)

(** C1. Every recipient list that [send_email] hands to [sendmail] has,
    as a set, the addresses of the receiver (the one address, or those of
    the given list), of [cc] and of [bcc], as they are when the call
    begins; an absent or empty [cc] or [bcc] adds nothing. The list
    arguments are list objects of the heap, aliased or not. And such a
    list is handed over: on a sender that holds a connection and tries at
    least once, a call whose message is built and serialises hands at
    least one recipient list to [sendmail]. *)
Theorem recipients_are_union (E : Env) (receiver : Receiver)
    (subject content : string) (attachments : option (list string))
    (html_content : option string) (sender_name receiver_name : string)
    (cc bcc : option loc) (st : St) :
  allocated (heap st) cc -> allocated (heap st) bcc ->
  Forall (fun to_addrs : list string =>
            list_to_set to_addrs =@{gset string}
            list_to_set (primary (heap st) receiver)
            ∪ list_to_set (addresses (heap st) cc)
            ∪ list_to_set (addresses (heap st) bcc))
         (envelopes (events (send_email E receiver subject content attachments
                               html_content sender_name receiver_name cc bcc st)))
  /\
  (forall (c : conn) (message : MIMEMultipart) (receivers : loc) (text : string),
     smtp_client (self st) = Some c ->
     0 < max_retries (self st) ->
     outcome (build_message E receiver subject content attachments html_content
                            sender_name cc bcc st) = Val (message, receivers) ->
     as_string E message = inr text ->
     envelopes (events (send_email E receiver subject content attachments
                           html_content sender_name receiver_name cc bcc st))
     <> []).
Proof.
  intros Hcc Hbcc. split.
  2:{ intros c message receivers text Hc Hn Hbuild Htext.
      rewrite build_message_run in Hbuild. rewrite send_email_run.
      destruct (receivers_of (heap st) receiver) as [[r h0]|]; [|discriminate].
      cbv zeta in *. rewrite outcome_run in Hbuild. injection Hbuild as <- <-.
      match goal with
      | |- context [guarded (deliver E ?m ?r) ?s] =>
          destruct (deliver_hands_over E m r s c text Hn Hc Htext)
            as (fault & rest & ->)
      end.
      rewrite events_run.
      change (EvCall MSendEmail :: ?l) with ([EvCall MSendEmail] ++ l).
      rewrite !envelopes_app, envelopes_logs. simpl. discriminate. }
  rewrite send_email_run.
  destruct receiver as [address | r | ]; simpl receivers_of; cbv iota beta zeta;
    [ | | constructor].
  - match goal with
    | |- context [guarded (deliver E ?m ?r) ?s] =>
        destruct (deliver_facts E m r s) as (_ & _ & Henv & _)
    end.
    unfold events at 1. simpl.
    change (EvCall MSendEmail :: ?l) with ([EvCall MSendEmail] ++ l).
    rewrite !envelopes_app, envelopes_logs. simpl.
    eapply Forall_impl; [exact Henv|]. intros to_addrs ->. simpl.
    rewrite !heap_get_extended, addresses_extended, heap_get_insert.
    rewrite (addresses_alloc _ cc) by assumption.
    destruct (decide (bcc = Some (fresh (dom (heap st))))) as [-> | _].
    + exfalso. simpl in Hbcc. apply (is_fresh (dom (heap st))).
      apply elem_of_dom. assumption.
    + rewrite (addresses_alloc _ bcc) by assumption.
      rewrite !list_to_set_app_L. simpl.
      apply set_eq. intros x. rewrite !elem_of_union. tauto.
  - match goal with
    | |- context [guarded (deliver E ?m ?r) ?s] =>
        destruct (deliver_facts E m r s) as (_ & _ & Henv & _)
    end.
    unfold events at 1. simpl.
    change (EvCall MSendEmail :: ?l) with ([EvCall MSendEmail] ++ l).
    rewrite !envelopes_app, envelopes_logs. simpl.
    eapply Forall_impl; [exact Henv|]. intros to_addrs ->. simpl.
    rewrite !heap_get_extended, addresses_extended.
    destruct (decide (bcc = Some r)) as [-> | _]; simpl;
      rewrite !list_to_set_app_L;
      apply set_eq; intros x; rewrite !elem_of_union; tauto.
Qed.

(** The receiver list [1] given again as [bcc], with [cc] the list [2],
    on the connection [2]. *)
Lemma recipients_are_union_witness :
  allocated (heap st_connected) (Some 2%positive) /\
  allocated (heap st_connected) (Some 1%positive) /\
  Forall (fun to_addrs : list string =>
            list_to_set to_addrs =@{gset string}
            list_to_set (primary (heap st_connected) (RList 1%positive))
            ∪ list_to_set (addresses (heap st_connected) (Some 2%positive))
            ∪ list_to_set (addresses (heap st_connected) (Some 1%positive)))
         (envelopes (events (send_email env_flaky (RList 1%positive) "subject"
                               "text" None None "" "" (Some 2%positive)
                               (Some 1%positive) st_connected))) /\
  smtp_client (self st_connected) = Some 2%nat /\
  0 < max_retries (self st_connected) /\
  (exists message receivers text,
     outcome (build_message env_flaky (RList 1%positive) "subject" "text" None
                            None "" (Some 2%positive) (Some 1%positive)
                            st_connected) = Val (message, receivers) /\
     as_string env_flaky message = inr text) /\
  envelopes (events (send_email env_flaky (RList 1%positive) "subject" "text"
                        None None "" "" (Some 2%positive) (Some 1%positive)
                        st_connected))
  <> [].
Proof.
  assert (allocated (heap st_connected) (Some 2%positive)) as H2.
  { simpl. eexists. reflexivity. }
  assert (allocated (heap st_connected) (Some 1%positive)) as H1.
  { simpl. eexists. reflexivity. }
  assert (smtp_client (self st_connected) = Some 2%nat) as H3 by reflexivity.
  assert (0 < max_retries (self st_connected)) as H4 by reflexivity.
  assert (exists message receivers text,
     outcome (build_message env_flaky (RList 1%positive) "subject" "text" None
                            None "" (Some 2%positive) (Some 1%positive)
                            st_connected) = Val (message, receivers) /\
     as_string env_flaky message = inr text) as H5.
  { eexists. eexists. eexists. split; vm_compute; reflexivity. }
  split; [exact H2|]. split; [exact H1|].
  split; [|split; [exact H3|]; split; [exact H4|]; split; [exact H5|]].
  - apply (proj1 (recipients_are_union env_flaky (RList 1%positive) "subject"
                    "text" None None "" "" (Some 2%positive) (Some 1%positive)
                    st_connected H2 H1)).
  - destruct H5 as (message & receivers & text & H5 & H6).
    apply (proj2 (recipients_are_union env_flaky (RList 1%positive) "subject"
                    "text" None None "" "" (Some 2%positive) (Some 1%positive)
                    st_connected H2 H1) 2%nat message receivers text H3 H4 H5 H6).
Defined.

(** In that run the server is tried twice, with the grown list. *)
Example recipients_example :
  envelopes (events (send_email env_flaky (RList 1%positive) "subject" "text"
                       None None "" "" (Some 2%positive) (Some 1%positive)
                       st_connected))
  = [ ["a@example.org"; "b@example.org"; "c@example.org";
       "a@example.org"; "b@example.org"; "c@example.org"];
      ["a@example.org"; "b@example.org"; "c@example.org";
       "a@example.org"; "b@example.org"; "c@example.org"] ].
Proof. vm_compute. reflexivity. Qed.

(** C2. On a sender as [__init__] builds it, [connect()] makes one to
    three attempts. Every failed attempt but the third is followed by a
    sleep of 2; the first success ends the call at once with [True];
    [False] is returned only once three attempts have failed, and no sleep
    follows the third. *)
Theorem connect_retries (E : Env) (st : St) :
  constructed (self st) ->
  let r := connect E st in
  exists fails : nat,
    (fails <= 2)%nat /\
    attempts (events r) = S fails /\
    ((outcome r = Val (PyBool true) /\
      connect_steps (events r) = retry_steps 2 fails Succeeded) \/
     (outcome r = Val (PyBool false) /\ fails = 2%nat /\
      connect_steps (events r) = retry_steps 2 2 Failed)).
Proof.
  intros [Hn Hd]. destruct st as [[cfg cl n d] h t]. simpl in Hn, Hd. subst n d.
  unfold connect, connect_attempt, retry_or_give_up, SMTP_SSL, login, range.
  run.
  repeat
    (match goal with
     | |- context [ssl_fault E ?t ?a ?b] =>
         destruct (ssl_fault E t a b) eqn:?; run
     | |- context [login_fault E ?t ?a ?b ?c] =>
         destruct (login_fault E t a b c) eqn:?; run
     end);
    first [ exists 0%nat; split; [lia|]; split; [reflexivity|]; left; split; reflexivity
          | exists 1%nat; split; [lia|]; split; [reflexivity|]; left; split; reflexivity
          | exists 2%nat; split; [lia|]; split; [reflexivity|]; left; split; reflexivity
          | exists 2%nat; split; [lia|]; split; [reflexivity|]; right; repeat split; reflexivity ].
Qed.

Lemma connect_retries_witness :
  constructed (self st_example) /\
  exists fails : nat,
    (fails <= 2)%nat /\
    attempts (events (connect env_flaky st_example)) = S fails /\
    ((outcome (connect env_flaky st_example) = Val (PyBool true) /\
      connect_steps (events (connect env_flaky st_example))
      = retry_steps 2 fails Succeeded) \/
     (outcome (connect env_flaky st_example) = Val (PyBool false) /\
      fails = 2%nat /\
      connect_steps (events (connect env_flaky st_example))
      = retry_steps 2 2 Failed)).
Proof.
  assert (constructed (self st_example)) as H by (split; reflexivity).
  split; [exact H|].
  apply (connect_retries env_flaky st_example H).
Defined.

(** There the first login is refused and the second attempt succeeds. *)
Example connect_example :
  outcome (connect env_flaky st_example) = Val (PyBool true) /\
  connect_steps (events (connect env_flaky st_example))
  = [Failed; Pause 2; Succeeded] /\
  smtp_client (self (final (connect env_flaky st_example))) = Some 2%nat.
Proof. vm_compute. auto. Qed.

(** C3. Whatever its arguments, the state of the connection and the
    behaviour of server, file system and library, [send_email] ends
    normally and hands back [True] or [False]: no exception escapes; this
    on any sender whose [max_retries] is positive, as it is (3) for every
    sender that [__init__] built. Without a connection the answer is
    [False] and no server is reached. *)
Theorem send_email_returns_bool (E : Env) (receiver : Receiver)
    (subject content : string) (attachments : option (list string))
    (html_content : option string) (sender_name receiver_name : string)
    (cc bcc : option loc) (st : St) :
  0 < max_retries (self st) ->
  exists b : bool,
    outcome (send_email E receiver subject content attachments html_content
                        sender_name receiver_name cc bcc st)
    = Val (PyBool b) /\
    (smtp_client (self st) = None ->
     b = false /\
     Forall (fun ev => is_network ev = false)
            (events (send_email E receiver subject content attachments
                       html_content sender_name receiver_name cc bcc st))).
Proof.
  intros Hn. rewrite send_email_run.
  destruct (receivers_of (heap st) receiver) as [[r h0]|].
  - cbv zeta.
    match goal with
    | |- context [guarded (deliver E ?m r) ?s] =>
        destruct (deliver_returns_bool E m r s Hn) as [b Hb];
        exists b; split; [exact Hb|]; intros Hc;
        destruct (deliver_unconnected E m r s Hc Hn) as (evs & Hrun & Hev);
        rewrite Hrun in *
    end.
    unfold outcome, events in *. simpl in *.
    split; [congruence|].
    constructor; [reflexivity|]. apply Forall_app. split; [|assumption].
    apply Forall_fmap, Forall_forall. intros p _. unfold log_for. simpl.
    destruct (fs E p); try reflexivity.
    destruct (is_image_path p); [destruct (image_what E content0)|]; reflexivity.
  - exists false. split; [reflexivity|]. intros _.
    split; [reflexivity|]. repeat constructor.
Qed.

(** A call on a sender that never connected. *)
Lemma send_email_returns_bool_witness :
  0 < max_retries (self st_example) /\
  exists b : bool,
    outcome (send_email env_flaky (RList 1%positive) "subject" "text"
                        (Some ["a.png"; "gone.pdf"]) (Some "<p>text</p>")
                        "sender" "receiver" (Some 2%positive) None st_example)
    = Val (PyBool b) /\
    (smtp_client (self st_example) = None ->
     b = false /\
     Forall (fun ev => is_network ev = false)
            (events (send_email env_flaky (RList 1%positive) "subject" "text"
                       (Some ["a.png"; "gone.pdf"]) (Some "<p>text</p>")
                       "sender" "receiver" (Some 2%positive) None st_example))).
Proof.
  assert (0 < max_retries (self st_example)) as H by reflexivity.
  split; [exact H|].
  apply (send_email_returns_bool env_flaky (RList 1%positive) "subject" "text"
           (Some ["a.png"; "gone.pdf"]) (Some "<p>text</p>")
           "sender" "receiver" (Some 2%positive) None st_example H).
Defined.

(** A receiver that is no string and no list of strings ends in the
    outer handler. *)
Example send_email_invalid_receiver :
  outcome (send_email env_flaky RInvalid "subject" "text" None None "" "" None
                      None st_connected)
  = Val (PyBool false) /\
  events (send_email env_flaky RInvalid "subject" "text" None None "" "" None
                     None st_connected)
  = [EvCall MSendEmail; EvLog ERROR (MsgSendError TypeError)].
Proof. split; reflexivity. Qed.




(** What [int] makes of some ports: blanks around the number, a sign and
    single underscores between digits are accepted; other separators,
    letters, a blank inside or a file separator in front are not. *)
Example int_examples :
  let int := PyStr.int_ascii 4300 in
  int "465" = Some 465 /\ int " 4_65 " = Some 465 /\ int "+465" = Some 465 /\
  int "0465" = Some 465 /\ int "-1" = Some (-1) /\
  int "" = None /\ int "  " = None /\ int "4__65" = None /\ int "_465" = None /\
  int "465_" = None /\ int "4 65" = None /\ int "4.65" = None /\
  int "0x1d1" = None /\ int "+ 465" = None /\ int "smtps" = None /\
  int (String (ascii_of_nat 28) "465") = None /\
  int (String (ascii_of_nat 11) "465") = Some 465.
Proof. vm_compute. repeat split. Qed.

(** C5. A path of [attachments] that is not on disk is skipped with a
    warning: against the same call without that path, [build_message]
    hands back the same message and recipients, [send_email] returns the
    same value in the same state, and the trace differs by the one warning
    record. (The receiver is one that [", ".join] accepts; otherwise the
    call fails before any file is looked at.) *)
Theorem missing_attachment_skipped (E : Env) (receiver : Receiver)
    (subject content : string) (before after : list string) (file_path : string)
    (html_content : option string) (sender_name receiver_name : string)
    (cc bcc : option loc) (st : St) :
  fs E file_path = Missing ->
  receiver <> RInvalid ->
  let send paths :=
    send_email E receiver subject content (Some paths) html_content
               sender_name receiver_name cc bcc st in
  let build paths :=
    build_message E receiver subject content (Some paths) html_content
                  sender_name cc bcc st in
  outcome (build (before ++ file_path :: after)) = outcome (build (before ++ after)) /\
  outcome (send (before ++ file_path :: after)) = outcome (send (before ++ after)) /\
  final (send (before ++ file_path :: after)) = final (send (before ++ after)) /\
  exists pre post,
    events (send (before ++ file_path :: after))
    = pre ++ EvLog WARNING (MsgAttachmentMissing file_path) :: post /\
    events (send (before ++ after)) = pre ++ post.
Proof.
  intros Hfs Hrecv send build. unfold send, build.
  assert (omap (part_for E) (before ++ file_path :: after)
          = omap (part_for E) (before ++ after)) as Hparts.
  { rewrite !omap_app. simpl. unfold part_for at 2. rewrite Hfs. reflexivity. }
  rewrite !build_message_run, !send_email_run.
  destruct (receivers_of (heap st) receiver) as [[r h0]|] eqn:Hr.
  - cbv zeta. simpl default. rewrite Hparts.
    repeat split.
    exists (EvCall MSendEmail :: (log_for E <$> before)).
    eexists. unfold events. simpl.
    rewrite !fmap_app, <- !app_assoc. simpl.
    unfold log_for at 2. rewrite Hfs. split; reflexivity.
  - destruct receiver; simpl in Hr; congruence.
Qed.

(** [gone.pdf] is not on disk; [a.png] and [b.bin] are. *)
Lemma missing_attachment_skipped_witness :
  fs env_flaky "gone.pdf" = Missing /\
  RStr "x@example.org" <> RInvalid /\
  let send paths :=
    send_email env_flaky (RStr "x@example.org") "subject" "text" (Some paths)
               None "" "" None None st_connected in
  let build paths :=
    build_message env_flaky (RStr "x@example.org") "subject" "text" (Some paths)
                  None "" None None st_connected in
  outcome (build (["a.png"] ++ "gone.pdf" :: ["b.bin"]))
  = outcome (build (["a.png"] ++ ["b.bin"])) /\
  outcome (send (["a.png"] ++ "gone.pdf" :: ["b.bin"]))
  = outcome (send (["a.png"] ++ ["b.bin"])) /\
  final (send (["a.png"] ++ "gone.pdf" :: ["b.bin"]))
  = final (send (["a.png"] ++ ["b.bin"])) /\
  exists pre post,
    events (send (["a.png"] ++ "gone.pdf" :: ["b.bin"]))
    = pre ++ EvLog WARNING (MsgAttachmentMissing "gone.pdf") :: post /\
    events (send (["a.png"] ++ ["b.bin"])) = pre ++ post.
Proof.
  assert (fs env_flaky "gone.pdf" = Missing) as H1 by reflexivity.
  assert (RStr "x@example.org" <> RInvalid) as H2 by discriminate.
  split; [exact H1|]. split; [exact H2|].
  apply (missing_attachment_skipped env_flaky (RStr "x@example.org") "subject"
           "text" ["a.png"] ["b.bin"] "gone.pdf" None "" "" None None
           st_connected H1 H2).
Defined.

(** C6, with the tag that the code writes. Every part that
    [build_message] adds after the text parts comes from a readable file of
    [attachments] and carries the header [Content-Disposition: attachment]
    with the name of the file as [filename]; it is an image part when the
    lower-cased suffix of the file is [.jpg], [.jpeg], [.png] or [.gif], and
    an [application/octet-stream] part otherwise. *)
Theorem attachment_parts (E : Env) (receiver : Receiver)
    (subject content : string) (attachments : option (list string))
    (html_content : option string) (sender_name : string)
    (cc bcc : option loc) (st : St) (message : MIMEMultipart) (receivers : loc) :
  outcome (build_message E receiver subject content attachments html_content
                         sender_name cc bcc st) = Val (message, receivers) ->
  exists added : list MimePart,
    m_parts message =
      (MIMEText content "plain" "utf-8"
       :: if PyStr.truthy_opt html_content
          then [MIMEText (default "" html_content) "html" "utf-8"]
          else [])
      ++ added /\
    Forall (fun part =>
              exists file_path data,
                file_path ∈ default [] attachments /\
                fs E file_path = Readable data /\
                tagged "attachment" part /\
                let disposition :=
                  {| h_name := "Content-Disposition"; h_value := "attachment";
                     h_params := [("filename", PurePath.name file_path)] |} in
                if bool_decide (PyStr.lower (PurePath.suffix file_path)
                                ∈ [".jpg"; ".jpeg"; ".png"; ".gif"])
                then exists subtype, part = MIMEImage data subtype [disposition]
                else part = MIMEApplication data "octet-stream" [disposition])
           added.
Proof.
  rewrite build_message_run.
  destruct (receivers_of (heap st) receiver) as [[r h0]|]; [|discriminate].
  unfold outcome. simpl. intros [= <- <-].
  exists (omap (part_for E) (default [] attachments)).
  split; [reflexivity|].
  apply Forall_forall. intros part Hin.
  apply list_elem_of_omap in Hin as (file_path & Hp & Hpart).
  unfold part_for, is_image_path, image_suffixes in Hpart.
  destruct (fs E file_path) as [| |data] eqn:Hfs; try discriminate.
  exists file_path, data. split; [assumption|]. split; [assumption|].
  destruct (bool_decide _).
  - destruct (image_what E data) as [subtype|]; [|discriminate].
    simpl in Hpart. injection Hpart as <-.
    split; [constructor; auto | eauto].
  - injection Hpart as <-. split; [constructor; auto | reflexivity].
Qed.

Lemma attachment_parts_witness :
  outcome built_example = Val (message_example, receivers_example) /\
  exists added : list MimePart,
    m_parts message_example = [MIMEText "text" "plain" "utf-8"] ++ added /\
    Forall (fun part =>
              exists file_path data,
                file_path ∈ ["a.png"; "gone.pdf"; "b.bin"] /\
                fs env_flaky file_path = Readable data /\
                tagged "attachment" part /\
                let disposition :=
                  {| h_name := "Content-Disposition"; h_value := "attachment";
                     h_params := [("filename", PurePath.name file_path)] |} in
                if bool_decide (PyStr.lower (PurePath.suffix file_path)
                                ∈ [".jpg"; ".jpeg"; ".png"; ".gif"])
                then exists subtype, part = MIMEImage data subtype [disposition]
                else part = MIMEApplication data "octet-stream" [disposition])
           added.
Proof.
  assert (outcome built_example = Val (message_example, receivers_example)) as H
    by (vm_compute; reflexivity).
  split; [exact H|].
  apply (attachment_parts env_flaky (RStr "x@example.org") "subject" "text"
           (Some ["a.png"; "gone.pdf"; "b.bin"]) None "" (Some 2%positive) None
           st_connected message_example receivers_example H).
Defined.

(** C6 as stated fails: the parts added for [a.png] and [b.bin] are
    tagged [attachment], and no part of the message is tagged [inline]. *)
Lemma attachment_not_tagged_inline :
  outcome built_example = Val (message_example, receivers_example) /\
  m_parts message_example =
    [ MIMEText "text" "plain" "utf-8";
      MIMEImage "PNG" "png"
        [{| h_name := "Content-Disposition"; h_value := "attachment";
            h_params := [("filename", "a.png")] |}];
      MIMEApplication "BIN" "octet-stream"
        [{| h_name := "Content-Disposition"; h_value := "attachment";
            h_params := [("filename", "b.bin")] |}] ] /\
  Forall (fun part => ~ tagged "inline" part) (m_parts message_example).
Proof.
  split; [vm_compute; reflexivity|].
  split; [vm_compute; reflexivity|].
  assert (m_parts message_example =
    [ MIMEText "text" "plain" "utf-8";
      MIMEImage "PNG" "png"
        [{| h_name := "Content-Disposition"; h_value := "attachment";
            h_params := [("filename", "a.png")] |}];
      MIMEApplication "BIN" "octet-stream"
        [{| h_name := "Content-Disposition"; h_value := "attachment";
            h_params := [("filename", "b.bin")] |}] ]) as ->
    by (vm_compute; reflexivity).
  unfold tagged.
  repeat constructor; simpl; intros H;
    repeat match goal with
           | H : Exists _ _ |- _ => inversion H; clear H; subst
           | H : _ /\ _ |- _ => destruct H
           end;
    simpl in *; discriminate.
Qed.

(** C7. The [with] statement calls [close()] exactly once, after its
    body and however the body ends: the trace of the statement is that of
    [connect], then that of the body, then that of one call of [close] in
    the state that the body leaves; the statement then ends as the body
    did, be it normally or by an exception. [main], whose body is the send
    step, so calls [close] exactly once whenever the configuration is
    built (and the sender with it), as the last thing it does; without a
    configuration no sender exists and [close] is not called. *)
Theorem close_exactly_once (E : Env) (st : St) :
  (forall (A : Type) (cfg : EmailConfig) (body : M A),
     let entered := final (connect E (entering cfg st)) in
     let left := final (body entered) in
     outcome (with_EmailSender E cfg body st) = outcome (body entered) /\
     events (with_EmailSender E cfg body st)
     = events (connect E (entering cfg st))
       ++ events (body entered) ++ events (close E left) /\
     calls MClose (events (connect E (entering cfg st))) = 0%nat /\
     calls MClose (events (close E left)) = 1%nat)
  /\
  match EmailConfig_init E with
  | inr cfg =>
      calls MClose (events (main E st)) = 1%nat /\
      exists before left,
        events (main E st) = before ++ events (close E left) /\
        calls MClose before = 0%nat
  | inl _ => calls MClose (events (main E st)) = 0%nat
  end.
Proof.
  assert (forall cfg, calls MClose (events (connect E (entering cfg st))) = 0%nat)
    as Hconnect.
  { intros cfg. apply connect_event_calls.
    apply (connect_obeys E cfg (entering cfg st)). reflexivity. }
  split.
  - intros A cfg body entered left.
    rewrite with_EmailSender_run. unfold outcome, events. simpl.
    repeat split; [apply Hconnect | apply calls_close].
  - destruct (EmailConfig_init E) as [e|cfg] eqn:Hcfg.
    + rewrite (main_config_error E e st Hcfg). reflexivity.
    + rewrite (main_run E cfg st Hcfg). unfold events at 1 3. simpl.
      rewrite with_EmailSender_run. unfold events at 1 5. simpl.
      destruct (main_body_run E (final (connect E (entering cfg st))))
        as [_ Hbody].
      split.
      * rewrite !calls_app, Hconnect, Hbody, calls_close. reflexivity.
      * eexists. eexists. rewrite app_assoc. split; [reflexivity|].
        rewrite calls_app, Hconnect, Hbody. reflexivity.
Qed.

(** C8. [close()] never raises, in any state of the sender and whatever
    the server does: without a connection it changes nothing and reaches
    no one; with one, it calls [quit] once and logs either the closing
    or the error that [quit] raised. *)
Theorem close_never_raises (E : Env) (st : St) :
  outcome (close E st) = Val () /\
  match smtp_client (self st) with
  | None =>
      final (close E st) = st /\ events (close E st) = [EvCall MClose]
  | Some c =>
      match quit_fault E (clock st) c with
      | Some e =>
          events (close E st) =
          [EvCall MClose; EvQuit c (Some e); EvLog ERROR (MsgCloseError e)]
      | None =>
          events (close E st) =
          [EvCall MClose; EvQuit c None; EvLog INFO MsgClosed]
      end
  end.
Proof.
  rewrite close_run.
  destruct (smtp_client (self st)) as [c|]; simpl; [|auto].
  destruct (quit_fault E (clock st) c); auto.
Qed.



(** C9 as stated fails: the texts handed to the server by those two
    calls, which differ in [bcc] only, are not the same, because the
    library writes a boundary of its own for each message object. The
    blind-copied addresses are in the second recipient list and in neither
    text. *)
Lemma serialised_messages_differ :
  payloads (events first_call)
  = ["====|subject;me@example.org;x@example.org;c@example.org"] /\
  payloads (events second_call)
  = ["======|subject;me@example.org;x@example.org;c@example.org"] /\
  envelopes (events first_call) = [["x@example.org"; "c@example.org"]] /\
  envelopes (events second_call)
  = [["x@example.org"; "c@example.org"; "a@example.org"; "b@example.org"]] /\
  payloads (events first_call) <> payloads (events second_call).
Proof.
  vm_compute. repeat split. discriminate.
Qed.

(** C10. A receiver given as a list is extended in place: when
    [send_email] returns, the caller's list object holds its former
    content, then the addresses of [cc], then those of [bcc], and no other
    list object has changed. ([bcc] is read when it is appended: if it is
    the receiver list itself, what is appended is that list as already
    extended by [cc].) A receiver given as a string leaves every list
    object of the caller as it was. *)
Theorem receiver_list_extended_in_place (E : Env) (subject content : string)
    (attachments : option (list string)) (html_content : option string)
    (sender_name receiver_name : string) (cc bcc : option loc) (st : St) :
  (forall r : loc,
     let st' := final (send_email E (RList r) subject content attachments
                         html_content sender_name receiver_name cc bcc st) in
     heap_get (heap st') r =
     heap_get (heap st) r ++ addresses (heap st) cc
     ++ (if decide (bcc = Some r)
         then heap_get (heap st) r ++ addresses (heap st) cc
         else addresses (heap st) bcc)
     /\ delete r (heap st') = delete r (heap st))
  /\
  (forall address : string,
     heap st ⊆ heap (final (send_email E (RStr address) subject content
                              attachments html_content sender_name
                              receiver_name cc bcc st))).
Proof.
  split.
  - intros r st'. unfold st'. rewrite send_email_heap. simpl. split.
    + rewrite !heap_get_extended, addresses_extended, app_assoc. reflexivity.
    + rewrite !extended_delete. reflexivity.
  - intros address. rewrite send_email_heap. simpl.
    apply map_subseteq_spec. intros l x Hl.
    assert (l <> fresh (dom (heap st))) as Hne.
    { intros ->. apply (is_fresh (dom (heap st))), elem_of_dom. eauto. }
    rewrite !extended_lookup_ne by assumption.
    rewrite lookup_insert_ne by auto. assumption.
Qed.

(** * Further properties *)



(** With a negative delay the call does not get that far: [time.sleep]
    raises in the handler of the first failed attempt, and the exception
    leaves [connect]. *)
Example connect_negative_delay :
  let st := {| self := {| config := cfg_example; smtp_client := None;
                          max_retries := 3; retry_delay := -1 |};
               heap := ∅; clock := 0 |} in
  outcome (connect env_unreachable st)
  = Exc (ValueError "sleep length must be non-negative") /\
  attempts (events (connect env_unreachable st)) = 1%nat.
Proof. vm_compute. split; reflexivity. Qed.



(** There the first delivery is refused and the second goes through. *)
Example send_email_retries_example :
  send_steps (events (send_email env_flaky (RList 1%positive) "subject" "text"
                        None None "" "" (Some 2%positive) None st_connected))
  = [Failed; Pause 2; Succeeded].
Proof. vm_compute. reflexivity. Qed.

(** X3. When the message is built, the library serialises it and the
    server accepts it as it is first handed over, [send_email] on a
    connected sender returns [True] after exactly one [sendmail], without
    any sleep. *)
Theorem send_email_first_try (E : Env) (receiver : Receiver)
    (subject content : string) (attachments : option (list string))
    (html_content : option string) (sender_name receiver_name : string)
    (cc bcc : option loc) (st : St) (c : conn)
    (message : MIMEMultipart) (receivers : loc) (text : string) :
  let built :=
    build_message E receiver subject content attachments html_content
                  sender_name cc bcc st in
  0 < max_retries (self st) ->
  smtp_client (self st) = Some c ->
  outcome built = Val (message, receivers) ->
  as_string E message = inr text ->
  sendmail_fault E (clock (final built)) c (email (config (self st)))
                 (heap_get (heap (final built)) receivers) text = None ->
  outcome (send_email E receiver subject content attachments html_content
                      sender_name receiver_name cc bcc st)
  = Val (PyBool true) /\
  send_steps (events (send_email E receiver subject content attachments
                        html_content sender_name receiver_name cc bcc st))
  = [Succeeded] /\
  length (envelopes (events (send_email E receiver subject content attachments
                               html_content sender_name receiver_name cc bcc st)))
  = 1%nat.
Proof.
  intros built Hn Hc Hbuild Htext Hacc. unfold built in *. clear built.
  rewrite build_message_run in Hbuild, Hacc. rewrite send_email_run.
  destruct (receivers_of (heap st) receiver) as [[r h0]|] eqn:Hr;
    [|discriminate].
  cbv zeta in *. rewrite outcome_run in Hbuild. injection Hbuild as <- <-.
  rewrite final_run in Hacc.
  match goal with
  | |- context [guarded (deliver E ?m r) ?s] =>
      rewrite (guarded_run _ _ _ _ _
                 (deliver_first_try E m r s c text Hn Hc Htext Hacc))
  end.
  rewrite !outcome_run, !events_run.
  change (EvCall MSendEmail :: ?l) with ([EvCall MSendEmail] ++ l).
  unfold send_steps. rewrite !omap_app, !envelopes_app, envelopes_logs.
  pose proof (send_steps_logs E (default [] attachments)) as Hlogs.
  unfold send_steps in Hlogs. rewrite Hlogs. auto.
Qed.

Lemma send_email_first_try_witness :
  let built :=
    build_message env_accepting (RStr "x@example.org") "subject" "text" None
                  None "" None None st_connected in
  0 < max_retries (self st_connected) /\
  smtp_client (self st_connected) = Some 2%nat /\
  exists message receivers text,
    outcome built = Val (message, receivers) /\
    as_string env_accepting message = inr text /\
    sendmail_fault env_accepting (clock (final built)) 2%nat
                   (email (config (self st_connected)))
                   (heap_get (heap (final built)) receivers) text = None /\
    outcome (send_email env_accepting (RStr "x@example.org") "subject" "text"
                        None None "" "" None None st_connected)
    = Val (PyBool true) /\
    send_steps (events (send_email env_accepting (RStr "x@example.org") "subject"
                          "text" None None "" "" None None st_connected))
    = [Succeeded] /\
    length (envelopes (events (send_email env_accepting (RStr "x@example.org")
                                 "subject" "text" None None "" "" None None
                                 st_connected)))
    = 1%nat.
Proof.
  intros built.
  assert (0 < max_retries (self st_connected)) as H1 by reflexivity.
  assert (smtp_client (self st_connected) = Some 2%nat) as H2 by reflexivity.
  assert (exists message receivers text,
            outcome built = Val (message, receivers) /\
            as_string env_accepting message = inr text) as H3
    by (eexists; eexists; eexists; split; vm_compute; reflexivity).
  destruct H3 as (message & receivers & text & H3 & H4).
  assert (sendmail_fault env_accepting (clock (final built)) 2%nat
                         (email (config (self st_connected)))
                         (heap_get (heap (final built)) receivers) text = None)
    as H5 by reflexivity.
  split; [exact H1|]. split; [exact H2|].
  exists message, receivers, text.
  split; [exact H3|]. split; [exact H4|]. split; [exact H5|].
  apply (send_email_first_try env_accepting (RStr "x@example.org") "subject"
           "text" None None "" "" None None st_connected 2%nat message
           receivers text H1 H2 H3 H4 H5).
Defined.

(** The one message goes to the one recipient. *)
Example send_email_first_try_example :
  envelopes (events (send_email env_accepting (RStr "x@example.org") "subject"
                       "text" None None "" "" None None st_connected))
  = [["x@example.org"]].
Proof. vm_compute. reflexivity. Qed.



(** There two sleeps are spent before the failure is reported; with the
    subject in ASCII the same call delivers at once. *)
Example send_email_stuck_example :
  sleeps (events (send_email env_ascii_only (RList 1%positive) "结业证书" "text"
                    None None "" "" None None st_connected)) = [2; 2] /\
  outcome (send_email env_ascii_only (RList 1%positive) "subject" "text"
                      None None "" "" None None st_connected)
  = Val (PyBool true).
Proof. vm_compute. split; reflexivity. Qed.

(** X5. [send_email] works on the connection it finds and on nothing
    else: every [sendmail] goes through the connection that the sender
    holds when the call begins and gives the account of the configuration
    as the sender's address; no connection is opened, logged in or quit,
    not even between retries; and the sender is left as it was. *)
Theorem send_email_keeps_connection (E : Env) (receiver : Receiver)
    (subject content : string) (attachments : option (list string))
    (html_content : option string) (sender_name receiver_name : string)
    (cc bcc : option loc) (st : St) :
  Forall (fun ev =>
            match ev with
            | EvCall m => m = MSendEmail
            | EvSendmail c from_addr _ _ _ =>
                smtp_client (self st) = Some c /\
                from_addr = email (config (self st))
            | EvSleep _ | EvLog _ _ => True
            | EvSMTP_SSL _ _ _ | EvLogin _ _ _ _ | EvQuit _ _ => False
            end)
         (events (send_email E receiver subject content attachments
                    html_content sender_name receiver_name cc bcc st)) /\
  self (final (send_email E receiver subject content attachments html_content
                          sender_name receiver_name cc bcc st)) = self st.
Proof.
  split; [|apply send_email_self].
  eapply Forall_impl; [apply send_email_events|].
  intros ev Hev. destruct ev; simpl in *; tauto.
Qed.

(** X6. [connect] reaches the configured server only: every connection
    is opened to the server and port of the configuration, every login
    uses its account and credential, and nothing is sent and no session is
    quit, so that a connection that the sender already holds is left
    open. This for any number of retries. *)
Theorem connect_uses_configuration (E : Env) (st : St) :
  Forall (fun ev =>
            match ev with
            | EvCall m => m = MConnect
            | EvSMTP_SSL host port _ =>
                host = smtp_server (config (self st)) /\
                port = smtp_port (config (self st))
            | EvLogin _ user pw _ =>
                user = email (config (self st)) /\
                pw = password (config (self st))
            | EvSleep _ | EvLog _ _ => True
            | EvSendmail _ _ _ _ _ | EvQuit _ _ => False
            end)
         (events (connect E st)).
Proof.
  assert (obeys (fun st' => config (self st') = config (self st))
                (configured_event (config (self st))) (connect E)) as Hobeys.
  { unfold connect. apply obeys_bind.
    { intros st' H. run. repeat constructor. assumption. }
    intros _. apply obeys_bind.
    { intros st' H. run. auto. }
    intros s. apply obeys_bind; [|intros r; apply obeys_ret].
    apply obeys_for. intros attempt. apply connect_attempt_configured. }
  destruct (Hobeys st eq_refl) as [_ Hev].
  eapply Forall_impl; [exact Hev|].
  intros ev Hc. destruct ev; simpl in *; tauto.
Qed.

(** X7. On a sender as [__init__] builds it, the client that [connect]
    leaves is the connection of its last login, whether that login went
    through or not, and [connect] returns [True] exactly when it did: after
    a [connect] that returned [False] the sender may hold a connection that
    never logged in. When no connection could be opened at all, the client
    is what it was and [False] is returned. *)
Theorem connect_leaves_last_connection (E : Env) (st : St) :
  constructed (self st) ->
  match last_login (events (connect E st)) with
  | Some (c, fault) =>
      smtp_client (self (final (connect E st))) = Some c /\
      (outcome (connect E st) = Val (PyBool true) <-> fault = None)
  | None =>
      smtp_client (self (final (connect E st))) = smtp_client (self st) /\
      outcome (connect E st) = Val (PyBool false)
  end.
Proof. intros H. apply (connect_client_facts E st H). Qed.

Lemma connect_leaves_last_connection_witness :
  constructed (self st_example) /\
  match last_login (events (connect env_flaky st_example)) with
  | Some (c, fault) =>
      smtp_client (self (final (connect env_flaky st_example))) = Some c /\
      (outcome (connect env_flaky st_example) = Val (PyBool true) <-> fault = None)
  | None =>
      smtp_client (self (final (connect env_flaky st_example)))
      = smtp_client (self st_example) /\
      outcome (connect env_flaky st_example) = Val (PyBool false)
  end.
Proof.
  assert (constructed (self st_example)) as H by (split; reflexivity).
  split; [exact H|].
  apply (connect_leaves_last_connection env_flaky st_example H).
Defined.



(** There two connections are opened, the first of which fails to log
    in, and one session is quit. *)
Example main_quits_once_example :
  opened (events (main env_flaky st_example)) = 2%nat /\
  quits (events (main env_flaky st_example)) = 1%nat.
Proof. vm_compute. auto. Qed.

(** X9. No exception leaves [main]: whatever the environment, the
    server, the file system and the library do, [main] ends normally. *)
Theorem main_never_raises (E : Env) (st : St) :
  outcome (main E st) = Val ().
Proof.
  destruct (EmailConfig_init E) as [e|cfg] eqn:Hcfg.
  - rewrite (main_config_error E e st Hcfg). reflexivity.
  - rewrite (main_run E cfg st Hcfg). reflexivity.
Qed.

(** X10. When the server cannot be reached, [main] tries three
    connections and nothing else: no login, no delivery and no quit. It
    still enters the send step, which runs its three attempts on the
    missing connection, so that four sleeps of 2 are spent in all; the
    failure is logged and [main] ends normally. *)
Theorem main_server_unreachable (E : Env) (cfg : EmailConfig) (st : St) :
  EmailConfig_init E = inr cfg ->
  (forall t, ssl_fault E t (smtp_server cfg) (smtp_port cfg) <> None) ->
  List.filter is_network (events (main E st))
  = (fun t => EvSMTP_SSL (smtp_server cfg) (smtp_port cfg)
                         (ssl_fault E t (smtp_server cfg) (smtp_port cfg)))
    <$> [clock st; S (clock st); S (S (clock st))] /\
  sleeps (events (main E st)) = [2; 2; 2; 2] /\
  EvLog ERROR MsgMainFailure ∈ events (main E st) /\
  outcome (main E st) = Val ().
Proof.
  intros Hcfg Hdown. rewrite (main_run E cfg st Hcfg).
  rewrite !events_run, outcome_run, with_EmailSender_run.
  cbv zeta. rewrite !events_run.
  destruct (connect_unreachable E (entering cfg st))
    as (_ & Hself & Hnet & Hsl); [split; reflexivity | exact Hdown |].
  destruct (main_body_facts E (final (connect E (entering cfg st))))
    as (_ & Hbself & _ & Hstuck).
  rewrite Hself in Hstuck, Hbself.
  destruct Hstuck as (Hbnet & Hbsl & Hlog);
    [reflexivity | reflexivity | unfold sleeps_well; rewrite Hself; reflexivity |].
  rewrite close_run, Hbself. cbn [smtp_client EmailSender_init entering self].
  rewrite events_run.
  rewrite !List.filter_app, !sleeps_app, Hnet, Hsl, Hbsl.
  rewrite (filter_network_none _ Hbnet).
  repeat split; try reflexivity.
  apply elem_of_app. right. apply elem_of_app. left. exact Hlog.
Qed.

Lemma main_server_unreachable_witness :
  EmailConfig_init env_unreachable
  = inr {| smtp_server := "smtp.qq.com"; smtp_port := 465;
           email := "me@example.org"; password := "secret" |} /\
  (forall t, ssl_fault env_unreachable t "smtp.qq.com" 465 <> None) /\
  List.filter is_network (events (main env_unreachable st_example))
  = (fun t => EvSMTP_SSL "smtp.qq.com" 465
                         (ssl_fault env_unreachable t "smtp.qq.com" 465))
    <$> [clock st_example; S (clock st_example); S (S (clock st_example))] /\
  sleeps (events (main env_unreachable st_example)) = [2; 2; 2; 2] /\
  EvLog ERROR MsgMainFailure ∈ events (main env_unreachable st_example) /\
  outcome (main env_unreachable st_example) = Val ().
Proof.
  assert (EmailConfig_init env_unreachable
          = inr {| smtp_server := "smtp.qq.com"; smtp_port := 465;
                   email := "me@example.org"; password := "secret" |}) as H1
    by reflexivity.
  assert (forall t, ssl_fault env_unreachable t "smtp.qq.com" 465 <> None) as H2
    by (intros t; discriminate).
  split; [exact H1|]. split; [exact H2|].
  apply (main_server_unreachable env_unreachable _ st_example H1 H2).
Defined.

(** X11. A file of [attachments] that exists but cannot be opened or read
    is skipped with an error record that carries the exception: against
    the same call without that path, [build_message] hands back the same
    message and recipients, [send_email] returns the same value in the
    same state, and the trace differs by that one record. The files after
    it are still attached. *)
Theorem unreadable_attachment_skipped (E : Env) (receiver : Receiver)
    (subject content : string) (before after : list string) (file_path : string)
    (e : Exn) (html_content : option string) (sender_name receiver_name : string)
    (cc bcc : option loc) (st : St) :
  fs E file_path = Unreadable e ->
  receiver <> RInvalid ->
  let send paths :=
    send_email E receiver subject content (Some paths) html_content
               sender_name receiver_name cc bcc st in
  let build paths :=
    build_message E receiver subject content (Some paths) html_content
                  sender_name cc bcc st in
  outcome (build (before ++ file_path :: after)) = outcome (build (before ++ after)) /\
  outcome (send (before ++ file_path :: after)) = outcome (send (before ++ after)) /\
  final (send (before ++ file_path :: after)) = final (send (before ++ after)) /\
  exists pre post,
    events (send (before ++ file_path :: after))
    = pre ++ EvLog ERROR (MsgAttachmentError e) :: post /\
    events (send (before ++ after)) = pre ++ post.
Proof.
  intros Hfs Hrecv.
  assert (part_for E file_path = None) as Hnone
    by (unfold part_for; rewrite Hfs; reflexivity).
  assert (log_for E file_path = EvLog ERROR (MsgAttachmentError e)) as <-
    by (unfold log_for; rewrite Hfs; reflexivity).
  apply path_skipped; assumption.
Qed.

Lemma unreadable_attachment_skipped_witness :
  fs env_accepting "locked.txt" = Unreadable OSError /\
  RStr "x@example.org" <> RInvalid /\
  let send paths :=
    send_email env_accepting (RStr "x@example.org") "subject" "text"
               (Some paths) None "" "" None None st_connected in
  let build paths :=
    build_message env_accepting (RStr "x@example.org") "subject" "text"
                  (Some paths) None "" None None st_connected in
  outcome (build ([] ++ "locked.txt" :: ["a.png"])) = outcome (build ([] ++ ["a.png"])) /\
  outcome (send ([] ++ "locked.txt" :: ["a.png"])) = outcome (send ([] ++ ["a.png"])) /\
  final (send ([] ++ "locked.txt" :: ["a.png"])) = final (send ([] ++ ["a.png"])) /\
  exists pre post,
    events (send ([] ++ "locked.txt" :: ["a.png"]))
    = pre ++ EvLog ERROR (MsgAttachmentError OSError) :: post /\
    events (send ([] ++ ["a.png"])) = pre ++ post.
Proof.
  assert (fs env_accepting "locked.txt" = Unreadable OSError) as H1 by reflexivity.
  assert (RStr "x@example.org" <> RInvalid) as H2 by discriminate.
  split; [exact H1|]. split; [exact H2|].
  apply (unreadable_attachment_skipped env_accepting (RStr "x@example.org")
           "subject" "text" [] ["a.png"] "locked.txt" OSError None "" "" None
           None st_connected H1 H2).
Defined.

(** X12. A readable file whose name has an image suffix but whose content
    is not recognised as an image is not attached as a generic part
    instead: [MIMEImage] raises [TypeError], the file is skipped with an
    error record, and the send goes on as it would without that path. *)
Theorem unrecognised_image_skipped (E : Env) (receiver : Receiver)
    (subject content : string) (before after : list string) (file_path : string)
    (data : string) (html_content : option string)
    (sender_name receiver_name : string) (cc bcc : option loc) (st : St) :
  fs E file_path = Readable data ->
  PyStr.lower (PurePath.suffix file_path) ∈ [".jpg"; ".jpeg"; ".png"; ".gif"] ->
  image_what E data = None ->
  receiver <> RInvalid ->
  let send paths :=
    send_email E receiver subject content (Some paths) html_content
               sender_name receiver_name cc bcc st in
  let build paths :=
    build_message E receiver subject content (Some paths) html_content
                  sender_name cc bcc st in
  outcome (build (before ++ file_path :: after)) = outcome (build (before ++ after)) /\
  outcome (send (before ++ file_path :: after)) = outcome (send (before ++ after)) /\
  final (send (before ++ file_path :: after)) = final (send (before ++ after)) /\
  exists pre post,
    events (send (before ++ file_path :: after))
    = pre ++ EvLog ERROR (MsgAttachmentError TypeError) :: post /\
    events (send (before ++ after)) = pre ++ post.
Proof.
  intros Hfs Hsuffix Hwhat Hrecv.
  assert (is_image_path file_path = true) as Himg
    by (unfold is_image_path, image_suffixes; apply bool_decide_eq_true; exact Hsuffix).
  assert (part_for E file_path = None) as Hnone
    by (unfold part_for; rewrite Hfs, Himg, Hwhat; reflexivity).
  assert (log_for E file_path = EvLog ERROR (MsgAttachmentError TypeError)) as <-
    by (unfold log_for; rewrite Hfs, Himg, Hwhat; reflexivity).
  apply path_skipped; assumption.
Qed.

Lemma unrecognised_image_skipped_witness :
  fs env_accepting "junk.png" = Readable "junk" /\
  PyStr.lower (PurePath.suffix "junk.png") ∈ [".jpg"; ".jpeg"; ".png"; ".gif"] /\
  image_what env_accepting "junk" = None /\
  RStr "x@example.org" <> RInvalid /\
  let send paths :=
    send_email env_accepting (RStr "x@example.org") "subject" "text"
               (Some paths) None "" "" None None st_connected in
  let build paths :=
    build_message env_accepting (RStr "x@example.org") "subject" "text"
                  (Some paths) None "" None None st_connected in
  outcome (build (["a.png"] ++ "junk.png" :: [])) = outcome (build (["a.png"] ++ [])) /\
  outcome (send (["a.png"] ++ "junk.png" :: [])) = outcome (send (["a.png"] ++ [])) /\
  final (send (["a.png"] ++ "junk.png" :: [])) = final (send (["a.png"] ++ [])) /\
  exists pre post,
    events (send (["a.png"] ++ "junk.png" :: []))
    = pre ++ EvLog ERROR (MsgAttachmentError TypeError) :: post /\
    events (send (["a.png"] ++ [])) = pre ++ post.
Proof.
  assert (fs env_accepting "junk.png" = Readable "junk") as H1 by reflexivity.
  assert (PyStr.lower (PurePath.suffix "junk.png")
          ∈ [".jpg"; ".jpeg"; ".png"; ".gif"]) as H2
    by (vm_compute; repeat constructor).
  assert (image_what env_accepting "junk" = None) as H3 by reflexivity.
  assert (RStr "x@example.org" <> RInvalid) as H4 by discriminate.
  split; [exact H1|]. split; [exact H2|]. split; [exact H3|]. split; [exact H4|].
  apply (unrecognised_image_skipped env_accepting (RStr "x@example.org")
           "subject" "text" ["a.png"] [] "junk.png" "junk" None "" "" None None
           st_connected H1 H2 H3 H4).
Defined.

(** X13. The parts of the built message are, in this order: the plain
    text; the HTML text when [html_content] is not empty; then one part
    for each path of [attachments] that can be attached ([part_for]), in
    the order of the list, a path listed twice being attached twice. *)
Theorem attachments_in_order (E : Env) (receiver : Receiver)
    (subject content : string) (attachments : option (list string))
    (html_content : option string) (sender_name : string)
    (cc bcc : option loc) (st : St) (message : MIMEMultipart) (receivers : loc) :
  outcome (build_message E receiver subject content attachments html_content
                         sender_name cc bcc st) = Val (message, receivers) ->
  m_parts message =
    [MIMEText content "plain" "utf-8"]
    ++ (if PyStr.truthy_opt html_content
        then [MIMEText (default "" html_content) "html" "utf-8"]
        else [])
    ++ omap (part_for E) (default [] attachments).
Proof.
  rewrite build_message_run.
  destruct (receivers_of (heap st) receiver) as [[r h0]|]; [|discriminate].
  rewrite outcome_run. intros [= <- <-]. reflexivity.
Qed.

Lemma attachments_in_order_witness :
  outcome (build_message env_flaky (RStr "x@example.org") "subject" "text"
                         (Some ["a.png"; "gone.pdf"; "b.bin"]) None ""
                         (Some 2%positive) None st_connected)
  = Val (message_example, receivers_example) /\
  m_parts message_example =
    [MIMEText "text" "plain" "utf-8"]
    ++ (if PyStr.truthy_opt None
        then [MIMEText (default "" None) "html" "utf-8"]
        else [])
    ++ omap (part_for env_flaky) (default [] (Some ["a.png"; "gone.pdf"; "b.bin"])).
Proof.
  assert (outcome (build_message env_flaky (RStr "x@example.org") "subject"
                     "text" (Some ["a.png"; "gone.pdf"; "b.bin"]) None ""
                     (Some 2%positive) None st_connected)
          = Val (message_example, receivers_example)) as H
    by (vm_compute; reflexivity).
  split; [exact H|].
  apply (attachments_in_order env_flaky (RStr "x@example.org") "subject" "text"
           (Some ["a.png"; "gone.pdf"; "b.bin"]) None "" (Some 2%positive) None
           st_connected message_example receivers_example H).
Defined.

(** X14. The recipient list handed to [sendmail] is, in this order, the
    receiver's addresses, those of [cc], those of [bcc]; nothing is
    removed, so that an address given twice is handed over twice. (With
    [bcc] a list object other than the receiver list.) *)
Theorem envelope_in_order (E : Env) (receiver : Receiver)
    (subject content : string) (attachments : option (list string))
    (html_content : option string) (sender_name receiver_name : string)
    (cc bcc : option loc) (st : St) :
  allocated (heap st) cc -> allocated (heap st) bcc ->
  (forall r, receiver = RList r -> bcc <> Some r) ->
  Forall (fun to_addrs : list string =>
            to_addrs = primary (heap st) receiver
                       ++ addresses (heap st) cc ++ addresses (heap st) bcc)
         (envelopes (events (send_email E receiver subject content attachments
                               html_content sender_name receiver_name cc bcc st))).
Proof.
  intros Hcc Hbcc Halias. rewrite send_email_run.
  destruct receiver as [address | r | ]; simpl receivers_of; cbv iota beta zeta;
    [ | | constructor].
  - match goal with
    | |- context [guarded (deliver E ?m ?r) ?s] =>
        destruct (deliver_facts E m r s) as (_ & _ & Henv & _)
    end.
    rewrite events_run.
    change (EvCall MSendEmail :: ?l) with ([EvCall MSendEmail] ++ l).
    rewrite !envelopes_app, envelopes_logs. simpl.
    eapply Forall_impl; [exact Henv|]. intros to_addrs ->. simpl.
    rewrite !heap_get_extended, addresses_extended, heap_get_insert.
    rewrite (addresses_alloc _ cc) by assumption.
    destruct (decide (bcc = Some (fresh (dom (heap st))))) as [-> | _].
    + exfalso. simpl in Hbcc. apply (is_fresh (dom (heap st))).
      apply elem_of_dom. assumption.
    + rewrite (addresses_alloc _ bcc) by assumption.
      rewrite <- app_assoc. reflexivity.
  - match goal with
    | |- context [guarded (deliver E ?m ?r) ?s] =>
        destruct (deliver_facts E m r s) as (_ & _ & Henv & _)
    end.
    rewrite events_run.
    change (EvCall MSendEmail :: ?l) with ([EvCall MSendEmail] ++ l).
    rewrite !envelopes_app, envelopes_logs. simpl.
    eapply Forall_impl; [exact Henv|]. intros to_addrs ->. simpl.
    rewrite !heap_get_extended, addresses_extended.
    destruct (decide (bcc = Some r)) as [Heq | _];
      [destruct (Halias r eq_refl Heq)|].
    rewrite <- app_assoc. reflexivity.
Qed.

(** [c@example.org] is given as [cc] and again as [bcc]. *)
Lemma envelope_in_order_witness :
  allocated (heap st_connected) (Some 2%positive) /\
  allocated (heap st_connected) (Some 2%positive) /\
  (forall r, RList 1%positive = RList r -> Some 2%positive <> Some r) /\
  Forall (fun to_addrs : list string =>
            to_addrs = primary (heap st_connected) (RList 1%positive)
                       ++ addresses (heap st_connected) (Some 2%positive)
                       ++ addresses (heap st_connected) (Some 2%positive))
         (envelopes (events (send_email env_flaky (RList 1%positive) "subject"
                               "text" None None "" "" (Some 2%positive)
                               (Some 2%positive) st_connected))).
Proof.
  assert (allocated (heap st_connected) (Some 2%positive)) as H1
    by (simpl; eexists; reflexivity).
  assert (forall r, RList 1%positive = RList r -> Some 2%positive <> Some r) as H2
    by (intros r [= <-]; discriminate).
  split; [exact H1|]. split; [exact H1|]. split; [exact H2|].
  apply (envelope_in_order env_flaky (RList 1%positive) "subject" "text" None
           None "" "" (Some 2%positive) (Some 2%positive) st_connected H1 H1 H2).
Defined.

(** X15. A receiver list that has been used in a call keeps the addresses
    that the call appended: the next message built on the same list
    object names, in its [To] header, the [cc] and the [bcc] addresses of
    the earlier call after the receiver's own. (With [bcc] a list object
    other than the receiver list.) *)
Theorem earlier_recipients_in_to_header (E : Env) (r : loc)
    (subject content : string) (attachments : option (list string))
    (html_content : option string) (sender_name receiver_name : string)
    (cc bcc : option loc)
    (subject' content' : string) (attachments' : option (list string))
    (html_content' : option string) (sender_name' : string)
    (cc' bcc' : option loc) (st : St) :
  bcc <> Some r ->
  let st' := final (send_email E (RList r) subject content attachments
                               html_content sender_name receiver_name cc bcc st) in
  exists message,
    outcome (build_message E (RList r) subject' content' attachments'
                           html_content' sender_name' cc' bcc' st')
    = Val (message, r) /\
    ("To",
     PyStr.join ", " (heap_get (heap st) r ++ addresses (heap st) cc
                      ++ addresses (heap st) bcc))
    ∈ m_headers message.
Proof.
  intros Hbcc st'. rewrite build_message_run. simpl receivers_of. cbv zeta.
  eexists. rewrite outcome_run. split; [reflexivity|].
  unfold st'. rewrite send_email_heap. simpl receivers_of. cbv iota beta.
  rewrite !heap_get_extended, addresses_extended.
  destruct (decide (bcc = Some r)) as [Heq | _]; [contradiction|].
  rewrite <- app_assoc.
  unfold add_parts, text_message. simpl.
  do 2 apply list_elem_of_further. apply list_elem_of_here.
Qed.

(** The second call gives neither [cc] nor [bcc]. *)
Lemma earlier_recipients_in_to_header_witness :
  Some 2%positive <> Some 1%positive /\
  let st' := final (send_email env_flaky (RList 1%positive) "first" "text" None
                               None "" "" None (Some 2%positive) st_connected) in
  exists message,
    outcome (build_message env_flaky (RList 1%positive) "second" "text" None
                           None "" None None st')
    = Val (message, 1%positive) /\
    ("To",
     PyStr.join ", " (heap_get (heap st_connected) 1%positive
                      ++ addresses (heap st_connected) None
                      ++ addresses (heap st_connected) (Some 2%positive)))
    ∈ m_headers message.
Proof.
  assert (Some 2%positive <> Some 1%positive) as H by discriminate.
  split; [exact H|].
  apply (earlier_recipients_in_to_header env_flaky 1%positive "first" "text"
           None None "" "" None (Some 2%positive) "second" "text" None None ""
           None None st_connected H).
Defined.

(** The address that was blind-copied first is displayed next. *)
Example earlier_recipients_example :
  payloads (events (send_email env_accepting (RList 1%positive) "second" "text"
                      None None "" "" None None
                      (final (send_email env_accepting (RList 1%positive) "first"
                                "text" None None "" "" None (Some 2%positive)
                                st_connected))))
  = ["second;me@example.org;a@example.org, b@example.org, c@example.org"].
Proof. vm_compute. reflexivity. Qed.

(** X16. [close()] does not forget the connection: it leaves the sender,
    its client included, as it was, and a second [close()] calls [quit]
    again on the same connection. *)
Theorem close_keeps_client (E : Env) (st : St) (c : conn) :
  smtp_client (self st) = Some c ->
  self (final (close E st)) = self st /\
  exists lvl msg,
    events (close E (final (close E st)))
    = [EvCall MClose; EvQuit c (quit_fault E (S (clock st)) c); EvLog lvl msg].
Proof.
  intros Hc. rewrite (close_run E st), Hc. cbv zeta. rewrite final_run.
  split; [reflexivity|].
  rewrite close_run. cbn [self clock]. rewrite Hc. eauto.
Qed.

Lemma close_keeps_client_witness :
  smtp_client (self st_connected) = Some 2%nat /\
  self (final (close env_flaky st_connected)) = self st_connected /\
  exists lvl msg,
    events (close env_flaky (final (close env_flaky st_connected)))
    = [EvCall MClose;
       EvQuit 2%nat (quit_fault env_flaky (S (clock st_connected)) 2%nat);
       EvLog lvl msg].
Proof.
  assert (smtp_client (self st_connected) = Some 2%nat) as H by reflexivity.
  split; [exact H|].
  apply (close_keeps_client env_flaky st_connected 2%nat H).
Defined.

(** X17. With [max_retries] zero or negative, neither loop runs: [connect]
    makes no attempt and [send_email] hands nothing to the server, and
    both hand back [None] instead of a boolean. *)
Theorem no_attempt_without_retries (E : Env) (receiver : Receiver)
    (subject content : string) (attachments : option (list string))
    (html_content : option string) (sender_name receiver_name : string)
    (cc bcc : option loc) (st : St) :
  max_retries (self st) <= 0 ->
  receiver <> RInvalid ->
  connect E st = (Val PyNone, st, [EvCall MConnect]) /\
  outcome (send_email E receiver subject content attachments html_content
                      sender_name receiver_name cc bcc st) = Val PyNone /\
  Forall (fun ev => is_network ev = false)
         (events (send_email E receiver subject content attachments
                    html_content sender_name receiver_name cc bcc st)).
Proof.
  intros Hn Hrecv.
  assert (range (max_retries (self st)) = []) as Hrange.
  { unfold range. replace (Z.to_nat (max_retries (self st))) with 0%nat by lia.
    reflexivity. }
  split.
  - rewrite connect_run. cbv zeta. rewrite Hrange. destruct st; reflexivity.
  - rewrite send_email_run.
    destruct (receivers_of (heap st) receiver) as [[r h0]|] eqn:Hr;
      [|destruct receiver; simpl in Hr; congruence].
    cbv zeta.
    match goal with
    | |- context [guarded (deliver E ?m r) ?s] =>
        assert (deliver E m r s = (Val PyNone, s, [])) as Hrun
          by (rewrite deliver_run; cbv zeta; simpl self; rewrite Hrange;
              reflexivity);
        rewrite (guarded_run _ _ _ _ _ Hrun)
    end.
    rewrite !outcome_run, !events_run.
    split; [reflexivity|].
    constructor; [reflexivity|]. rewrite app_nil_r. apply network_logs.
Qed.

Lemma no_attempt_without_retries_witness :
  max_retries (self st_no_retry) <= 0 /\
  RList 1%positive <> RInvalid /\
  connect env_accepting st_no_retry = (Val PyNone, st_no_retry, [EvCall MConnect]) /\
  outcome (send_email env_accepting (RList 1%positive) "subject" "text" None
                      None "" "" None None st_no_retry) = Val PyNone /\
  Forall (fun ev => is_network ev = false)
         (events (send_email env_accepting (RList 1%positive) "subject" "text"
                    None None "" "" None None st_no_retry)).
Proof.
  assert (max_retries (self st_no_retry) <= 0) as H1 by (simpl; lia).
  assert (RList 1%positive <> RInvalid) as H2 by discriminate.
  split; [exact H1|]. split; [exact H2|].
  apply (no_attempt_without_retries env_accepting (RList 1%positive) "subject"
           "text" None None "" "" None None st_no_retry H1 H2).
Defined.

(** X18. The headers of the built message are, in this order: [Subject];
    [From], the account alone or, with a sender name, the name followed by
    the account in angle brackets; [To], the receiver's addresses as they
    are given, not those appended from [cc] and [bcc]; and [Cc], only when
    [cc] is a non-empty list. *)
Theorem message_headers (E : Env) (receiver : Receiver)
    (subject content : string) (attachments : option (list string))
    (html_content : option string) (sender_name : string)
    (cc bcc : option loc) (st : St) (message : MIMEMultipart) (receivers : loc) :
  allocated (heap st) cc ->
  outcome (build_message E receiver subject content attachments html_content
                         sender_name cc bcc st) = Val (message, receivers) ->
  m_headers message =
    [("Subject", subject);
     ("From",
      if PyStr.truthy sender_name
      then sender_name +:+ "<" +:+ email (config (self st)) +:+ ">"
      else email (config (self st)));
     ("To", PyStr.join ", " (primary (heap st) receiver))]
    ++ match addresses (heap st) cc with
       | [] => []
       | _ :: _ => [("Cc", PyStr.join ", " (addresses (heap st) cc))]
       end.
Proof.
  intros Hcc. rewrite build_message_run.
  destruct receiver as [address | r | ]; simpl receivers_of; cbv iota beta zeta;
    rewrite ?outcome_run; [ | | discriminate]; intros [= <- <-].
  - unfold add_parts, text_message. cbn [m_headers].
    rewrite heap_get_insert, (addresses_alloc _ cc) by assumption.
    reflexivity.
  - reflexivity.
Qed.

Lemma message_headers_witness :
  allocated (heap st_connected) (Some 2%positive) /\
  outcome (build_message env_flaky (RStr "x@example.org") "subject" "text"
                         (Some ["a.png"; "gone.pdf"; "b.bin"]) None ""
                         (Some 2%positive) None st_connected)
  = Val (message_example, receivers_example) /\
  m_headers message_example =
    [("Subject", "subject");
     ("From",
      if PyStr.truthy ""
      then "" +:+ "<" +:+ email (config (self st_connected)) +:+ ">"
      else email (config (self st_connected)));
     ("To", PyStr.join ", " (primary (heap st_connected) (RStr "x@example.org")))]
    ++ match addresses (heap st_connected) (Some 2%positive) with
       | [] => []
       | _ :: _ =>
           [("Cc", PyStr.join ", " (addresses (heap st_connected) (Some 2%positive)))]
       end.
Proof.
  assert (allocated (heap st_connected) (Some 2%positive)) as H1
    by (simpl; eexists; reflexivity).
  assert (outcome (build_message env_flaky (RStr "x@example.org") "subject"
                     "text" (Some ["a.png"; "gone.pdf"; "b.bin"]) None ""
                     (Some 2%positive) None st_connected)
          = Val (message_example, receivers_example)) as H2
    by (vm_compute; reflexivity).
  split; [exact H1|]. split; [exact H2|].
  apply (message_headers env_flaky (RStr "x@example.org") "subject" "text"
           (Some ["a.png"; "gone.pdf"; "b.bin"]) None "" (Some 2%positive) None
           st_connected message_example receivers_example H1 H2).
Defined.

(** X19. When the configuration is complete, the server accepts the
    connection, the login and the message as they reach it, and the
    library serialises the message that [main] builds, [main] reaches the
    server four times, in this order: it opens one connection to the
    configured server, logs in with the configured account and credential,
    hands over the serialised message from that account to the receiver
    and the copied address, and quits that same connection. It never
    sleeps and logs the success. *)
Theorem main_delivers (E : Env) (cfg : EmailConfig) (st : St) (text : string) :
  let t := clock st in
  EmailConfig_init E = inr cfg ->
  ssl_fault E t (smtp_server cfg) (smtp_port cfg) = None ->
  login_fault E (S t) t (email cfg) (password cfg) = None ->
  as_string E (main_message E (email cfg) (S (S t))) = inr text ->
  sendmail_fault E (S (S (S t))) t (email cfg)
                 ["dong.cheng@ythyjx.com"; "support@ythyjx.com"] text = None ->
  List.filter is_network (events (main E st))
  = [EvSMTP_SSL (smtp_server cfg) (smtp_port cfg) None;
     EvLogin t (email cfg) (password cfg) None;
     EvSendmail t (email cfg)
                ["dong.cheng@ythyjx.com"; "support@ythyjx.com"] text None;
     EvQuit t (quit_fault E (S (S (S (S t)))) t)] /\
  sleeps (events (main E st)) = [] /\
  EvLog INFO MsgMainSuccess ∈ events (main E st).
Proof.
  intros t Hcfg Hssl Hlogin Hser Hacc. unfold t in *. clear t.
  rewrite (main_run E cfg st Hcfg).
  rewrite !events_run, with_EmailSender_run. cbv zeta. rewrite !events_run.
  rewrite (connect_first_try E (entering cfg st));
    [ | reflexivity | exact Hssl | exact Hlogin ].
  rewrite final_run, events_run. cbn [entering self config clock heap].
  match goal with
  | |- context [main_body E ?s] =>
      destruct (main_body_delivers E s (clock st) text) as (Hnet & Hsl & Hlog);
        [reflexivity | reflexivity | exact Hser | exact Hacc |];
      destruct (main_body_facts E s) as (_ & Hself & _);
      assert (clock (final (main_body E s)) = S (S (S (S (clock st))))) as Hclock
  end.
  { unfold main_body. rewrite !run_bind. unfold alloc. cbv iota beta zeta.
    rewrite !run_bind. cbv iota beta zeta.
    rewrite send_email_run. cbn [receivers_of heap]. cbv zeta.
    set (r1 := fresh (dom (heap st))).
    set (h1 := <[r1 := ["dong.cheng@ythyjx.com"]]> (heap st)).
    set (r2 := fresh (dom h1)).
    set (h2 := <[r2 := ["support@ythyjx.com"]]> h1).
    assert (r2 <> r1) as Hne.
    { intros Heq. apply (is_fresh (dom h1)). fold r2. rewrite Heq.
      apply elem_of_dom. unfold h1. rewrite lookup_insert_eq. eauto. }
    assert (heap_get (extended (extended h2 r1 (Some r2)) r1 None) r1
            = ["dong.cheng@ythyjx.com"; "support@ythyjx.com"]) as Hto.
    { rewrite !heap_get_extended. simpl addresses. rewrite app_nil_r.
      unfold h2. rewrite heap_get_insert, heap_get_insert_ne by assumption.
      unfold h1. rewrite heap_get_insert. reflexivity. }
    assert (heap_get h2 r1 = ["dong.cheng@ythyjx.com"]) as Hr1.
    { unfold h2. rewrite heap_get_insert_ne by assumption.
      unfold h1. apply heap_get_insert. }
    assert (addresses h2 (Some r2) = ["support@ythyjx.com"]) as Hr2.
    { unfold h2. apply heap_get_insert. }
    rewrite Hr1, Hr2. rewrite <- Hto in Hacc.
    match goal with
    | |- context [guarded (deliver E ?m r1) ?s] =>
        rewrite (guarded_run _ _ _ _ _
                   (deliver_first_try E m r1 s (clock st) text
                      ltac:(reflexivity) ltac:(reflexivity) Hser Hacc))
    end.
    reflexivity. }
  rewrite close_run, Hself, Hclock. cbn [self smtp_client]. cbv zeta.
  rewrite events_run.
  rewrite !List.filter_app, !sleeps_app, Hnet, Hsl. cbn [self config].
  repeat split; try reflexivity.
  apply elem_of_app. right. apply elem_of_app. left. exact Hlog.
Qed.

Lemma main_delivers_witness :
  let cfg := {| smtp_server := "smtp.qq.com"; smtp_port := 465;
                email := "me@example.org"; password := "secret" |} in
  let text :=
    "结业证书;夜曲编程<me@example.org>;dong.cheng@ythyjx.com;support@ythyjx.com" in
  EmailConfig_init env_accepting = inr cfg /\
  ssl_fault env_accepting 0%nat "smtp.qq.com" 465 = None /\
  login_fault env_accepting 1%nat 0%nat "me@example.org" "secret" = None /\
  as_string env_accepting (main_message env_accepting "me@example.org" 2%nat)
  = inr text /\
  sendmail_fault env_accepting 3%nat 0%nat "me@example.org"
                 ["dong.cheng@ythyjx.com"; "support@ythyjx.com"] text = None /\
  List.filter is_network (events (main env_accepting st_example))
  = [EvSMTP_SSL "smtp.qq.com" 465 None;
     EvLogin 0%nat "me@example.org" "secret" None;
     EvSendmail 0%nat "me@example.org"
                ["dong.cheng@ythyjx.com"; "support@ythyjx.com"] text None;
     EvQuit 0%nat (quit_fault env_accepting 4%nat 0%nat)] /\
  sleeps (events (main env_accepting st_example)) = [] /\
  EvLog INFO MsgMainSuccess ∈ events (main env_accepting st_example).
Proof.
  intros cfg text.
  assert (EmailConfig_init env_accepting = inr cfg) as H1 by reflexivity.
  assert (ssl_fault env_accepting 0%nat "smtp.qq.com" 465 = None) as H2
    by reflexivity.
  assert (login_fault env_accepting 1%nat 0%nat "me@example.org" "secret" = None) as H3
    by reflexivity.
  assert (as_string env_accepting (main_message env_accepting "me@example.org" 2%nat)
          = inr text) as H4 by (vm_compute; reflexivity).
  assert (sendmail_fault env_accepting 3%nat 0%nat "me@example.org"
            ["dong.cheng@ythyjx.com"; "support@ythyjx.com"] text = None) as H5
    by reflexivity.
  split; [exact H1|]. split; [exact H2|]. split; [exact H3|].
  split; [exact H4|]. split; [exact H5|].
  apply (main_delivers env_accepting cfg st_example text H1 H2 H3 H4 H5).
Defined.

(** X20. The files are looked at once per call, not once per attempt:
    whatever the number of deliveries that [send_email] tries, its trace
    holds exactly one attachment record for each path of [attachments],
    in the order of the list. *)
Theorem files_read_once (E : Env) (receiver : Receiver)
    (subject content : string) (attachments : option (list string))
    (html_content : option string) (sender_name receiver_name : string)
    (cc bcc : option loc) (st : St) :
  receiver <> RInvalid ->
  List.filter is_attachment_log
    (events (send_email E receiver subject content attachments html_content
                        sender_name receiver_name cc bcc st))
  = log_for E <$> default [] attachments.
Proof.
  intros Hrecv. rewrite send_email_run.
  destruct (receivers_of (heap st) receiver) as [[r h0]|] eqn:Hr;
    [|destruct receiver; simpl in Hr; congruence].
  cbv zeta. rewrite events_run.
  change (EvCall MSendEmail :: ?l) with ([EvCall MSendEmail] ++ l).
  rewrite !List.filter_app, filter_attachment_logs, deliver_no_file.
  simpl. apply app_nil_r.
Qed.

(** Two deliveries are tried there, and each file is seen once. *)
Lemma files_read_once_witness :
  RList 1%positive <> RInvalid /\
  List.filter is_attachment_log
    (events (send_email env_flaky (RList 1%positive) "subject" "text"
                        (Some ["a.png"; "gone.pdf"]) None "" "" None None
                        st_connected))
  = log_for env_flaky <$> default [] (Some ["a.png"; "gone.pdf"]).
Proof.
  assert (RList 1%positive <> RInvalid) as H by discriminate.
  split; [exact H|].
  apply (files_read_once env_flaky (RList 1%positive) "subject" "text"
           (Some ["a.png"; "gone.pdf"]) None "" "" None None st_connected H).
Defined.
